(** * Notelock: the ephemeral note store and its admission pipeline

    A shallow embedding of [src/app.js] (the rate-limited revision, the first
    of the two revisions kept in that file): the in-memory SQLite table
    [notelock], the four [db*] helpers, the two route handlers
    ([POST /encrypt] and [GET /]) and the order in which the limiters are
    mounted in front of them.

    Conventions.
    - Time is an integer number of milliseconds since the Unix epoch, the
      value [new Date()] wraps.  Every operation that reads the clock takes
      the current time as an argument.
    - Text is [string] (a list of bytes), the table is a [list] of rows in
      rowid order: the column declaration [uuid TEXT PRIMARY_KEY] is a type
      name, not a [PRIMARY KEY] constraint, so SQLite keeps duplicates and
      scans the rows in insertion order.
    - [console.log] output is not modelled. *)

From Stdlib Require Import ZArith Lia List Ascii String Bool.
From stdpp Require Import gmap strings list fin_maps pretty.
Import ListNotations.

Local Open Scope string_scope.
Local Open Scope Z_scope.

(* ===================================================================== *)
(** ** Configuration constants (region NOTELOCK CONFIG)                   *)
(* ===================================================================== *)

Definition exInterval : Z := 5.        (* minutes between sweep ticks *)
Definition noteLife : Z := 24.         (* lifetime of notes, in hours *)

Definition spdTimeWindow : Z := 15.    (* minutes *)
Definition spdMaxRequests : Z := 1.
Definition spdMaxDelayTime : Z := 10.  (* seconds *)

Definition encTimeWindow : Z := 30.    (* minutes *)
Definition encMaxRequests : Z := 10.

Definition reqTimeWindow : Z := 15.    (* minutes *)
Definition reqMaxRequests : Z := 100.

Definition apiOnly : bool := false.
Definition customBranding : string := "".

(* ===================================================================== *)
(** ** Clock: the two textual timestamp formats                           *)
(* ===================================================================== *)

Module Clock.

Definition msPerSecond : Z := 1000.
Definition msPerMinute : Z := 60 * 1000.
Definition msPerHour : Z := 60 * 60 * 1000.
Definition msPerDay : Z := 24 * 60 * 60 * 1000.

(** Proleptic Gregorian date [(year, month, day)] of a day number counted
    from 1970-01-01, the calendar both [Date.prototype.toISOString] and
    SQLite's date functions use. *)
Definition civil_from_days (z : Z) : Z * Z * Z :=
  let z := z + 719468 in
  let era := z / 146097 in
  let doe := z - era * 146097 in
  let yoe := (doe - doe / 1460 + doe / 36524 - doe / 146096) / 365 in
  let y := yoe + era * 400 in
  let doy := doe - (365 * yoe + yoe / 4 - yoe / 100) in
  let mp := (5 * doy + 2) / 153 in
  let d := doy - (153 * mp + 2) / 5 + 1 in
  let m := if mp <? 10 then mp + 3 else mp - 9 in
  (if m <=? 2 then y + 1 else y, m, d).

Definition digit (n : Z) : ascii := ascii_of_nat (48 + Z.to_nat (n mod 10)).

Definition pad2 (n : Z) : string :=
  String (digit (n / 10)) (String (digit n) "").
Definition pad3 (n : Z) : string := String (digit (n / 100)) (pad2 n).
Definition pad4 (n : Z) : string := String (digit (n / 1000)) (pad3 n).

(** [YYYY-MM-DD], the first ten characters of both formats
    (years 0000 to 9999). *)
Definition date10 (t : Z) : string :=
  let '(y, m, d) := civil_from_days (t / msPerDay) in
  (pad4 y ++ "-" ++ pad2 m ++ "-" ++ pad2 d)%string.

(** [HH:MM:SS] of the time of day. *)
Definition time8 (t : Z) : string :=
  let ms := t mod msPerDay in
  (pad2 (ms / msPerHour) ++ ":" ++ pad2 (ms / msPerMinute mod 60)
    ++ ":" ++ pad2 (ms / msPerSecond mod 60))%string.

(** [new Date(t).toISOString()]: [YYYY-MM-DDTHH:mm:ss.sssZ]. *)
Definition toISOString (t : Z) : string :=
  (date10 t ++ "T" ++ time8 t ++ "." ++ pad3 (t mod msPerSecond) ++ "Z")%string.

(** SQLite's [datetime('now', '<hours> hours')] evaluated when the clock
    reads [now]: [YYYY-MM-DD HH:MM:SS], a blank between date and time, the
    milliseconds dropped. *)
Definition datetime (now hours : Z) : string :=
  let t := now + hours * msPerHour in
  (date10 t ++ " " ++ time8 t)%string.

End Clock.

(** [getTimeStamp()] at clock reading [now]. *)
Definition getTimeStamp (now : Z) : string := Clock.toISOString now.

(* ===================================================================== *)
(** ** The table [notelock] (region BETTER-SQLITE3)                       *)
(* ===================================================================== *)

(** One row of [notelock (uuid, note, created)].  [note] is [None] for SQL
    [NULL], which is what better-sqlite3 binds for [undefined]. *)
Record row := Row {
  uuid : string;
  note : option string;
  created : string
}.

(** The rows in rowid (insertion) order; nothing makes [uuid] unique. *)
Definition table := list row.

(** What JavaScript sees of a looked-up note: [false], [null] or a string. *)
Inductive jsval :=
| JFalse
| JNull
| JString (s : string).

(** JavaScript truthiness, as [if (...)] and [!] apply it. *)
Definition truthy (v : jsval) : bool :=
  match v with
  | JString s => negb (s =? "")%string
  | JFalse | JNull => false
  end.

(** A falsy note is an empty string or [NULL]. *)
Definition blank (c : option string) : Prop := c = None \/ c = Some "".

Definition has_uuid (id : string) (r : row) : bool := (uuid r =? id)%string.

(** [dbAddData(newID, cipherText)] when the clock reads [now]; [cipherText]
    is [None] when [req.body.cipher] is [undefined]. *)
Definition dbAddData (newID : string) (cipherText : option string) (now : Z)
    (db : table) : table :=
  List.app db [Row newID cipherText (getTimeStamp now)].

(** [dbFindData(uuid)]: [find.get] yields the first matching row or
    [undefined]; the function returns that row's [note], else [false]. *)
Definition dbFindData (id : string) (db : table) : jsval :=
  match List.find (has_uuid id) db with
  | Some r => match note r with
              | Some s => JString s
              | None => JNull
              end
  | None => JFalse
  end.

(** [dbDeleteValue(uuid)]: [DELETE FROM notelock WHERE uuid = ?]. *)
Definition dbDeleteValue (id : string) (db : table) : table :=
  List.filter (fun r => negb (has_uuid id r)) db.

(** The [WHERE] clause of the sweep, [created < datetime('now', '-N hours')]:
    both operands are TEXT, so SQLite compares them byte by byte. *)
Definition expired (now : Z) (r : row) : bool :=
  String.ltb (created r) (Clock.datetime now (- noteLife)).

(** [dbExpireValue()] when the clock reads [now]. *)
Definition dbExpireValue (now : Z) (db : table) : table :=
  List.filter (fun r => negb (expired now r)) db.

(** [delValue.changes] of that statement. *)
Definition expireChanges (now : Z) (db : table) : nat :=
  List.length (List.filter (expired now) db).

(** The recurring task: [setInterval(dbExpireValue, expireInterval)] is
    armed only when [expireInterval > 0]. *)
Definition expireInterval : Z := exInterval * 60 * 1000.

Definition sweepTick (now : Z) (db : table) : table :=
  if 0 <? expireInterval then dbExpireValue now db else db.

(** The ticks at [start + expireInterval], [start + 2 * expireInterval], ...,
    [n] of them, run in order with no request in between. *)
Fixpoint sweepTicks (n : nat) (start : Z) (db : table) : table :=
  match n with
  | O => db
  | S n' =>
      let t := start + expireInterval in
      sweepTicks n' t (sweepTick t db)
  end.

(* ===================================================================== *)
(** ** Route handlers (region API CALLS)                                  *)
(* ===================================================================== *)

(** The locals handed to [res.render]; a field left out is [None]. *)
Record locals := Locals {
  cipher : option jsval;
  error : option string;
  apionly : bool;
  branding : string
}.

Inductive response :=
| Render (view : string) (l : locals)
| Json (fields : list (string * string))
| Redirect (target : string).

(** The page a found note is delivered on. *)
Definition notePage (cipherText : jsval) : response :=
  Render "note.ejs" (Locals (Some cipherText) None apiOnly customBranding).

(** The page of the [else] branch, "Note was not found". *)
Definition notFoundPage : response := notePage (JString "").

Definition indexPage : response :=
  if apiOnly
  then Render "note.ejs" (Locals None None apiOnly customBranding)
  else Render "index.ejs" (Locals None None apiOnly customBranding).

(** [note.substring(0, 21)]. *)
Definition noteIdOf (n : string) : string := String.substring 0 21 n.

(** [app.get('/')]: [n] is [req.query.n], [None] when the query has none. *)
Definition app_get (n : option string) (db : table) : response * table :=
  match n with
  | Some n' =>
      if negb (n' =? "")%string then
        let noteId := noteIdOf n' in
        let cipherText := dbFindData noteId db in
        if truthy cipherText
        then (notePage cipherText, dbDeleteValue noteId db)
        else (notFoundPage, db)
      else (indexPage, db)
  | None => (indexPage, db)
  end.

Definition noteUrl (host noteId : string) : string :=
  ("https://" ++ host ++ "/?n=" ++ noteId ++ "#")%string.

Section Generator.

(** [nanoid]: the [k]-th call of the process returns [nanoid k]. *)
Variable nanoid : nat -> string.

(** The [while (true)] loop of [app.post('/encrypt')], cut after [fuel]
    iterations: [None] means the loop is still running.  [k] counts the
    calls of [nanoid] made so far. *)
Fixpoint encrypt_loop (fuel : nat) (cipherText : option string) (now : Z)
    (k : nat) (db : table) : option (string * nat * table) :=
  match fuel with
  | O => None
  | S fuel' =>
      let noteId := nanoid k in
      if negb (truthy (dbFindData noteId db))
      then Some (noteId, S k, dbAddData noteId cipherText now db)
      else encrypt_loop fuel' cipherText now (S k) db
  end.

(** [app.post('/encrypt')] behind its limiter: [cipherText] is
    [req.body.cipher], [host] is [req.get('host')]. *)
Definition app_post_encrypt (fuel : nat) (host : string)
    (cipherText : option string) (now : Z) (k : nat) (db : table)
    : option (response * nat * table) :=
  match encrypt_loop fuel cipherText now k db with
  | Some (noteId, k', db') => Some (Json [("id", noteUrl host noteId)], k', db')
  | None => None
  end.

(** [n] candidates from the [k]-th on collide and the next one is free. *)
Definition first_free (k n : nat) (t : table) : Prop :=
  (forall j, (j < n)%nat ->
     truthy (dbFindData (nanoid (k + j)) t) = true)
  /\ truthy (dbFindData (nanoid (k + n)) t) = false.

End Generator.

(** [app.all('/{*splat}')]. *)
Definition app_all : response := Redirect "/".

(* ===================================================================== *)
(** ** The limiters (regions EXPRESS-RATE-LIMIT and EXPRESS-SLOW-DOWN)    *)
(* ===================================================================== *)

Module Limit.

(** One client's counting window under one policy. *)
Record window := Window {
  windowStart : Z;
  count : Z
}.

(** The counters of one policy, keyed by client ([req.ip]). *)
Abbreviation counters := (gmap string window).

(** Modelled from the spec: the window counter inside the packages
    [express-rate-limit] and [express-slow-down], which [src/] only
    configures.  A client with no window opens one; the count resets to
    zero whenever the current time exceeds [windowStart + windowLength];
    the request at hand is then counted.  Returns the count including this
    request. *)
Definition hit (windowMs : Z) (client : string) (now : Z) (cs : counters)
    : Z * counters :=
  let w := match cs !! client with
           | Some w => if windowStart w + windowMs <? now
                       then Window now 0 else w
           | None => Window now 0
           end in
  let w' := Window (windowStart w) (count w + 1) in
  (count w', <[client := w']> cs).

Inductive verdict :=
| Next
| Reply (r : response).

(** The options [rateLimit({...})] is given. *)
Record rateLimitOptions := RateLimitOptions {
  rl_windowMs : Z;
  rl_max : Z;
  rl_handler : response
}.

(** Modelled from the spec: the middleware [rateLimit(o)] of
    [express-rate-limit].  On exceeding the cap within the current window
    the request is answered by the handler and goes no further. *)
Definition rateLimit (o : rateLimitOptions) (client : string) (now : Z)
    (cs : counters) : verdict * counters :=
  let '(hits, cs') := hit (rl_windowMs o) client now cs in
  (if rl_max o <? hits then Reply (rl_handler o) else Next, cs').

(** The options [slowDown({...})] is given. *)
Record slowDownOptions := SlowDownOptions {
  sd_windowMs : Z;
  sd_delayAfter : Z;
  sd_delayMs : Z -> Z;
  sd_maxDelayMs : Z
}.

(** Modelled from the spec: the delay [express-slow-down] imposes on a
    request that is the [hits]-th of its window: none up to the
    threshold, then [delayMs(hits)] capped at [maxDelayMs]. *)
Definition delayFor (o : slowDownOptions) (hits : Z) : Z :=
  if sd_delayAfter o <? hits
  then Z.min (sd_delayMs o hits) (sd_maxDelayMs o)
  else 0.

(** Modelled from the spec: the middleware [slowDown(o)]; it never
    rejects, it returns the delay before [next()] is called. *)
Definition slowDown (o : slowDownOptions) (client : string) (now : Z)
    (cs : counters) : Z * counters :=
  let '(hits, cs') := hit (sd_windowMs o) client now cs in
  (delayFor o hits, cs').

End Limit.

(** [speedLimiter], as configured in the source. *)
Definition speedLimiter : Limit.slowDownOptions :=
  {| Limit.sd_windowMs := spdTimeWindow * 60 * 1000;
     Limit.sd_delayAfter := spdMaxRequests;
     Limit.sd_delayMs := fun hits => (hits - spdMaxRequests) * 100;
     Limit.sd_maxDelayMs := spdMaxDelayTime * 1000 |}.

(** [encLimiter]: its handler answers with a JSON error object. *)
Definition encLimiter : Limit.rateLimitOptions :=
  {| Limit.rl_windowMs := encTimeWindow * 60 * 1000;
     Limit.rl_max := encMaxRequests;
     Limit.rl_handler :=
       Json [("id", "ERROR"); ("reason", "encryption");
             ("time", pretty encTimeWindow)] |}.

(** [reqLimiter]: its handler renders the note page with an error text. *)
Definition reqLimiter : Limit.rateLimitOptions :=
  {| Limit.rl_windowMs := reqTimeWindow * 60 * 1000;
     Limit.rl_max := reqMaxRequests;
     Limit.rl_handler :=
       Render "note.ejs"
         (Locals None
            (Some ("too many page requests. try again in "
                     ++ pretty reqTimeWindow ++ " minute(s)")%string)
            apiOnly customBranding) |}.

(* ===================================================================== *)
(** ** The middleware chain (region EXPRESS and the route table)          *)
(* ===================================================================== *)

(** The process state: the table, the number of [nanoid] calls made, and
    the three independent counter sets. *)
Record server := Server {
  db : table;
  nanoCalls : nat;
  reqHits : gmap string Limit.window;
  spdHits : gmap string Limit.window;
  encHits : gmap string Limit.window
}.

Inductive route :=
| GetRoot (n : option string)
| PostEncrypt (cipherText : option string)
| AnyOther.

Record request := Request {
  ip : string;
  host : string;
  target : route
}.

(** What one request experienced: the reply, the time it was held back by
    the slowdown before the reply was produced, and the state left. *)
Record outcome := Outcome {
  reply : response;
  delayed : Z;
  after : server
}.

Section Chain.

Variable nanoid : nat -> string.

(** One request arriving at time [now], through the chain in mounting
    order: [app.use(reqLimiter)], [app.use(speedLimiter)], then the
    matching route, where [/encrypt] carries [encLimiter] as its own
    middleware.  The middleware mounted earlier (HTTPS redirect, static
    files, body parser) is left out.  A delayed request continues at
    [now + delay]. *)
Definition serve (fuel : nat) (rq : request) (now : Z) (st : server)
    : option outcome :=
  let '(v1, rh) := Limit.rateLimit reqLimiter (ip rq) now (reqHits st) in
  match v1 with
  | Limit.Reply r =>
      Some (Outcome r 0
              (Server (db st) (nanoCalls st) rh (spdHits st) (encHits st)))
  | Limit.Next =>
      let '(d, sh) := Limit.slowDown speedLimiter (ip rq) now (spdHits st) in
      let now' := now + d in
      match target rq with
      | PostEncrypt c =>
          let '(v2, eh) :=
            Limit.rateLimit encLimiter (ip rq) now' (encHits st) in
          match v2 with
          | Limit.Reply r =>
              Some (Outcome r d (Server (db st) (nanoCalls st) rh sh eh))
          | Limit.Next =>
              match app_post_encrypt nanoid fuel (host rq) c now'
                      (nanoCalls st) (db st) with
              | Some (r, k', db') =>
                  Some (Outcome r d (Server db' k' rh sh eh))
              | None => None
              end
          end
      | GetRoot n =>
          let '(r, db') := app_get n (db st) in
          Some (Outcome r d (Server db' (nanoCalls st) rh sh (encHits st)))
      | AnyOther =>
          Some (Outcome app_all d
                  (Server (db st) (nanoCalls st) rh sh (encHits st)))
      end
  end.

End Chain.

Definition initial : server := Server [] 0 ∅ ∅ ∅.

(* ===================================================================== *)
(** ** Histories                                                          *)
(* ===================================================================== *)

(** What can happen to the table: a completed [POST /encrypt] that bound
    [id] (its only effect on the table is the final [dbAddData]), a
    [GET /] with query [n], and a sweep tick. *)
Inductive event :=
| Submitted (id : string) (cipherText : option string) (now : Z)
| Retrieved (n : option string)
| Swept (now : Z).

Definition apply_event (e : event) (t : table) : table :=
  match e with
  | Submitted id c now => dbAddData id c now t
  | Retrieved n => snd (app_get n t)
  | Swept now => dbExpireValue now t
  end.

(** The table after the events of [h], oldest first, starting from [t]. *)
Definition replay (h : list event) (t : table) : table :=
  List.fold_left (fun acc e => apply_event e acc) h t.

(** [e] binds a record to [id]. *)
Definition issues (id : string) (e : event) : Prop :=
  match e with
  | Submitted id' _ _ => id' = id
  | Retrieved _ | Swept _ => False
  end.

(** No event of [h] binds a record to [id]. *)
Definition never_issues (id : string) (h : list event) : Prop :=
  Forall (fun e => ~ issues id e) h.

(** Why a retrieval of [id] at the end of history [h] (from the empty
    table) finds nothing. *)
Inductive absence (id : string) (h : list event) : Prop :=
| NeverIssued :
    never_issues id h -> absence id h
| AlreadyConsumed (h1 h2 : list event) (n : string) :
    h = List.app h1 (Retrieved (Some n) :: h2) ->
    n <> "" -> noteIdOf n = id ->
    truthy (dbFindData id (replay h1 [])) = true ->
    never_issues id h2 -> absence id h
| AlreadyExpired (h1 h2 : list event) (now : Z) :
    h = List.app h1 (Swept now :: h2) ->
    dbFindData id (replay h1 []) <> JFalse ->
    dbFindData id (replay (List.app h1 [Swept now]) []) = JFalse ->
    never_issues id h2 -> absence id h.

(** A run of requests through one window counter: each request is a
    client and an arrival time; the counts come back tagged with the
    client. *)
Fixpoint hitAll (windowMs : Z) (reqs : list (string * Z))
    (cs : gmap string Limit.window)
    : list (string * Z) * gmap string Limit.window :=
  match reqs with
  | [] => ([], cs)
  | (c, t) :: rest =>
      let '(n, cs') := Limit.hit windowMs c t cs in
      let '(ns, cs'') := hitAll windowMs rest cs' in
      ((c, n) :: ns, cs'')
  end.

(** The client has no window open at time [t]: none yet, or one that
    [t] exceeds. *)
Definition idle (windowMs : Z) (c : string) (t : Z)
    (cs : gmap string Limit.window) : Prop :=
  match cs !! c with
  | Some w => Limit.windowStart w + windowMs < t
  | None => True
  end.

(** The counts [j + 1], [j + 2], ..., [n] of them. *)
Fixpoint counts_from (j : Z) (n : nat) : list Z :=
  match n with
  | O => []
  | S n' => (j + 1) :: counts_from (j + 1) n'
  end.

(** The verdict [rateLimit] reaches on the request counted [n]. *)
Definition verdict_at (o : Limit.rateLimitOptions) (n : Z) : Limit.verdict :=
  if Limit.rl_max o <? n then Limit.Reply (Limit.rl_handler o) else Limit.Next.

(** A run of requests through one hard limiter: each request is a client
    and an arrival time; the verdicts come back tagged with the client. *)
Fixpoint limitAll (o : Limit.rateLimitOptions) (reqs : list (string * Z))
    (cs : gmap string Limit.window)
    : list (string * Limit.verdict) * gmap string Limit.window :=
  match reqs with
  | [] => ([], cs)
  | (c, t) :: rest =>
      let '(v, cs') := Limit.rateLimit o c t cs in
      let '(vs, cs'') := limitAll o rest cs' in
      ((c, v) :: vs, cs'')
  end.

(** The same through the slowdown: the delays come back tagged. *)
Fixpoint slowAll (o : Limit.slowDownOptions) (reqs : list (string * Z))
    (cs : gmap string Limit.window)
    : list (string * Z) * gmap string Limit.window :=
  match reqs with
  | [] => ([], cs)
  | (c, t) :: rest =>
      let '(d, cs') := Limit.slowDown o c t cs in
      let '(ds, cs'') := slowAll o rest cs' in
      ((c, d) :: ds, cs'')
  end.

(** The entries of one client, in order. *)
Definition of_client {A : Type} (c : string) (l : list (string * A)) : list A :=
  List.map snd (List.filter (fun p => (fst p =? c)%string) l).

Section ChainRuns.

Variable nanoid : nat -> string.

(** Requests served one after the other, each with its arrival time; the
    outcomes come back oldest first. *)
Fixpoint serveAll (fuel : nat) (reqs : list (request * Z)) (st : server)
    : option (list outcome) :=
  match reqs with
  | [] => Some []
  | (rq, now) :: rest =>
      match serve nanoid fuel rq now st with
      | Some out =>
          match serveAll fuel rest (after out) with
          | Some outs => Some (out :: outs)
          | None => None
          end
      | None => None
      end
  end.

End ChainRuns.

(** An event that leaves the record [r], filed under [id], in place:
    any submission (rows are appended behind it), a retrieval of another
    id, a sweep at which [r] is not yet expired. *)
Definition leaves (id : string) (r : row) (e : event) : Prop :=
  match e with
  | Submitted _ _ _ => True
  | Retrieved n => forall s, n = Some s -> noteIdOf s <> id
  | Swept now => expired now r = false
  end.

(* ===================================================================== *)
(** ** Table invariant                                                    *)
(* ===================================================================== *)

(** No two rows share an id and every row has something to deliver. *)
Definition tidy (t : table) : Prop :=
  List.NoDup (List.map uuid t) /\ Forall (fun r => ~ blank (note r)) t.

(** The JavaScript value a stored note is read back as. *)
Definition js_of_note (c : option string) : jsval :=
  match c with
  | Some s => JString s
  | None => JNull
  end.

(** Rows filed under [id]. *)
Definition rows_of (id : string) (t : table) : table :=
  List.filter (has_uuid id) t.

(** Every row carries a stamp [getTimeStamp] wrote at a time with a
    four-digit year, 1970 or later. *)
Definition endOfYears : Z := 253402300800000.   (* 10000-01-01T00:00:00Z *)

Definition stamped (t : table) : Prop :=
  Forall (fun r => exists t0, 0 <= t0 < endOfYears
                              /\ created r = getTimeStamp t0) t.

(* ===================================================================== *)
(** ** Calendar dates as numbers                                          *)
(* ===================================================================== *)

(** The date of day number [z] as the number [yyyymmdd]. *)
Definition dateKey (z : Z) : Z :=
  let '(y, m, d) := Clock.civil_from_days z in y * 10000 + m * 100 + d.

Definition inMonth (z : Z) : bool :=
  let '(y, m, d) := Clock.civil_from_days z in
  (1 <=? m) && (m <=? 12) && (1 <=? d) && (d <=? 31).

(** A walk over [n] consecutive days from [z]: each date is later than
    the one before ([prev]) and has its month and day in range. *)
Fixpoint eraLoop (n : nat) (z prev : Z) : bool :=
  match n with
  | O => true
  | S n' =>
      let '(y, m, d) := Clock.civil_from_days z in
      let key := y * 10000 + m * 100 + d in
      (prev <? key) && (1 <=? m) && (m <=? 12) && (1 <=? d) && (d <=? 31)
      && eraLoop n' (z + 1) key
  end.

(* ===================================================================== *)
(** ** The clients ([views/js/main.js] and the PowerShell module)         *)
(* ===================================================================== *)

Module Client.

(** [s.replace(/x/g, y)] and PowerShell's [.Replace(x, y)] for single
    characters [x] and [y]: every occurrence is replaced. *)
Fixpoint replaceAll (x y : ascii) (s : string) : string :=
  match s with
  | EmptyString => EmptyString
  | String a s' =>
      String (if Ascii.eqb a x then y else a) (replaceAll x y s')
  end.

(** PowerShell's [.Replace(x, '')]: every occurrence is dropped. *)
Fixpoint removeAll (x : ascii) (s : string) : string :=
  match s with
  | EmptyString => EmptyString
  | String a s' =>
      if Ascii.eqb a x then removeAll x s' else String a (removeAll x s')
  end.

(** [s.replace(/=+$/, '')]: the run of ['='] at the end is dropped. *)
Fixpoint stripPadding (s : string) : string :=
  match s with
  | EmptyString => EmptyString
  | String a s' =>
      match stripPadding s' with
      | EmptyString => if Ascii.eqb a "=" then EmptyString
                       else String a EmptyString
      | r => String a r
      end
  end.

(** ['='.repeat(n)]. *)
Fixpoint padding (n : nat) : string :=
  match n with
  | O => EmptyString
  | S n' => String "=" (padding n')
  end.

(** [base64URLencode(base64String)] of [main.js]. *)
Definition base64URLencode (base64String : string) : string :=
  stripPadding (replaceAll "/" "_" (replaceAll "+" "-" base64String)).

(** [base64URLdecode(urlSafeString)] of [main.js]. *)
Definition base64URLdecode (urlSafeString : string) : string :=
  let base64Encoded := replaceAll "_" "/" (replaceAll "-" "+" urlSafeString) in
  let len := String.length urlSafeString in
  let pad := if (len mod 4 =? 0)%nat then EmptyString
             else padding (4 - len mod 4) in
  (base64Encoded ++ pad)%string.

(** The key conversion of [New-NotelockMessage]:
    [.Replace('+', '-').Replace('/', '_').Replace('=', '')]. *)
Definition urlSafeB64Key (key : string) : string :=
  removeAll "=" (replaceAll "/" "_" (replaceAll "+" "-" key)).

(** [base64iv.concat(base64Cipher)] of [encryptMessage]; the PowerShell
    module joins [InitVector + CipherTag] the same way. *)
Definition concatCipherIV (base64iv base64Cipher : string) : string :=
  (base64iv ++ base64Cipher)%string.

(** The text [getConcatMessageEncoding(iv)] cuts out of the delivered
    message before decoding it: [message.substring(0, 16)] for the IV,
    [message.substring(16, message.length)] for the ciphertext. *)
Definition concatPart (iv : bool) (message : string) : string :=
  if iv then String.substring 0 16 message
  else String.substring 16 (String.length message - 16) message.

(** [windowHash.substring(1, 44)] of [decryptMessage]. *)
Definition hashKey (windowHash : string) : string :=
  String.substring 1 43 windowHash.

(** The link [encryptMessage] shows: the server's [id] with the URL-safe
    key appended. *)
Definition concatUrl (id base64Key : string) : string :=
  (id ++ base64URLencode base64Key)%string.

(** A character that base64 text is made of apart from the padding, and
    that is none of the two characters the URL-safe form puts in. *)
Definition plain (a : ascii) : Prop := a <> "="%char /\ a <> "-"%char /\ a <> "_"%char.

(** Every character of [s] satisfies [P]. *)
Fixpoint all_chars (P : ascii -> Prop) (s : string) : Prop :=
  match s with
  | EmptyString => True
  | String a s' => P a /\ all_chars P s'
  end.

End Client.

(* ===================================================================== *)
(** ** The earlier revision of [GET /]                                    *)
(* ===================================================================== *)

(** The second copy of the server kept in [src/app.js], without limiters:
    its pages carry a [status] beside the [cipher]. *)
Module Legacy.

Record locals := Locals {
  cipher : option jsval;
  status : option string;
  apionly : bool
}.

Inductive response :=
| Render (view : string) (l : locals).

Definition foundPage (cipherText : jsval) : response :=
  Render "note.ejs" (Locals (Some cipherText) (Some "true") apiOnly).

Definition notFoundPage : response :=
  Render "note.ejs" (Locals (Some (JString "false")) (Some "false") apiOnly).

Definition indexPage : response :=
  if apiOnly
  then Render "note.ejs" (Locals (Some (JString "")) (Some "") apiOnly)
  else Render "index.ejs"
         (Locals (Some (JString "false")) (Some "false") apiOnly).

(** [app.get('/')] of that revision. *)
Definition app_get (n : option string) (db : table) : response * table :=
  match n with
  | Some n' =>
      if negb (n' =? "")%string then
        let noteId := noteIdOf n' in
        let cipherText := dbFindData noteId db in
        if truthy cipherText
        then (foundPage cipherText, dbDeleteValue noteId db)
        else (notFoundPage, db)
      else (indexPage, db)
  | None => (indexPage, db)
  end.

End Legacy.

(* ===================================================================== *)
(** ** Sample data                                                        *)
(* ===================================================================== *)

(** A 21-character id in nanoid's alphabet. *)
Definition sampleId : string := "V1StGXR8_Z5jdHi6B-myT".

(** A generator whose every call returns a different 21-character id. *)
Definition sampleGenerator (k : nat) : string :=
  ("V1StGXR8_Z5jdHi6B-m" ++ Clock.pad2 (Z.of_nat k))%string.

(** A generator that returns [sampleId] again and again. *)
Definition stuckGenerator (k : nat) : string := sampleId.

(** 2025-01-01T00:00:00.000Z. *)
Definition newYear2025 : Z := 1735689600000.

(* ===================================================================== *)
(** * Sanity checks of the embedding                                      *)
(* ===================================================================== *)

Example toISOString_epoch :
  Clock.toISOString 0 = "1970-01-01T00:00:00.000Z".
Proof. reflexivity. Qed.

Example toISOString_leap_day :
  Clock.toISOString 1709251199999 = "2024-02-29T23:59:59.999Z".
Proof. vm_compute. reflexivity. Qed.

Example toISOString_newYear2025 :
  getTimeStamp newYear2025 = "2025-01-01T00:00:00.000Z".
Proof. vm_compute. reflexivity. Qed.

Example datetime_minus_24_hours :
  Clock.datetime (newYear2025 + 25 * Clock.msPerHour + 123) (- noteLife)
    = "2025-01-01 01:00:00".
Proof. vm_compute. reflexivity. Qed.

Example noteIdOf_cuts :
  noteIdOf "V1StGXR8_Z5jdHi6B-myTand-more" = sampleId.
Proof. reflexivity. Qed.

Example dbFindData_first_match :
  dbFindData "a" [Row "b" (Some "x") ""; Row "a" None ""; Row "a" (Some "y") ""]
    = JNull.
Proof. reflexivity. Qed.

Example dbDeleteValue_all_matches :
  dbDeleteValue "a" [Row "b" (Some "x") ""; Row "a" None ""; Row "a" (Some "y") ""]
    = [Row "b" (Some "x") ""].
Proof. reflexivity. Qed.

Example limiter_handlers :
  Limit.rl_handler encLimiter
    = Json [("id", "ERROR"); ("reason", "encryption"); ("time", "30")]
  /\ Limit.rl_handler reqLimiter
    = Render "note.ejs"
        (Locals None
           (Some "too many page requests. try again in 15 minute(s)")
           false "").
Proof. split; vm_compute; reflexivity. Qed.

(* ===================================================================== *)
(** * Facts about the table                                               *)
(* ===================================================================== *)

Section TableFacts.

Implicit Types (t : table) (r : row) (id : string).

Lemma has_uuid_true id r : has_uuid id r = true <-> uuid r = id.
Proof. unfold has_uuid. apply String.eqb_eq. Qed.

Lemma has_uuid_false id r : has_uuid id r = false <-> uuid r <> id.
Proof. unfold has_uuid. apply String.eqb_neq. Qed.

(** [dbFindData] answers [false] exactly when no row carries the id. *)
Lemma dbFindData_false id t :
  dbFindData id t = JFalse <-> List.find (has_uuid id) t = None.
Proof.
  unfold dbFindData. destruct (List.find (has_uuid id) t) as [r|].
  - destruct (note r); split; discriminate.
  - split; reflexivity.
Qed.

Lemma dbFindData_nil id : dbFindData id [] = JFalse.
Proof. reflexivity. Qed.

Lemma find_filter_none (p q : row -> bool) t :
  List.find p t = None -> List.find p (List.filter q t) = None.
Proof.
  induction t as [|r t IH]; simpl; [reflexivity|].
  destruct (p r) eqn:Hp; [discriminate|]. intros H.
  destruct (q r); simpl; [rewrite Hp|]; auto.
Qed.

Lemma find_app_none (p : row -> bool) t r :
  List.find p t = None -> List.find p (List.app t [r]) = List.find p [r].
Proof.
  induction t as [|r' t IH]; simpl; [reflexivity|].
  destruct (p r'); [discriminate|]. exact IH.
Qed.

Lemma find_app_some (p : row -> bool) t t' r :
  List.find p t = Some r -> List.find p (List.app t t') = Some r.
Proof.
  induction t as [|r' t IH]; simpl; [discriminate|].
  destruct (p r'); auto.
Qed.

(** A row inserted under an id no row carried is the one found. *)
Lemma dbFindData_add_fresh id c now t :
  dbFindData id t = JFalse ->
  dbFindData id (dbAddData id c now t) =
    match c with Some s => JString s | None => JNull end.
Proof.
  intros H%dbFindData_false. unfold dbFindData, dbAddData.
  rewrite (find_app_none _ _ _ H). simpl.
  unfold has_uuid at 1. simpl. rewrite String.eqb_refl. reflexivity.
Qed.

(** An insertion under another id is not seen when looking up [id]. *)
Lemma dbFindData_add_other id id' c now t :
  id' <> id ->
  dbFindData id (dbAddData id' c now t) = dbFindData id t.
Proof.
  intros Hne. unfold dbFindData, dbAddData.
  destruct (List.find (has_uuid id) t) as [r|] eqn:Hf.
  - rewrite (find_app_some _ _ _ _ Hf). reflexivity.
  - rewrite (find_app_none _ _ _ Hf). simpl.
    apply String.eqb_neq in Hne.
    unfold has_uuid at 1. simpl. rewrite Hne. reflexivity.
Qed.

(** An insertion never changes what an id already resolves to. *)
Lemma dbFindData_add_shadowed id id' c now t :
  dbFindData id t <> JFalse ->
  dbFindData id (dbAddData id' c now t) = dbFindData id t.
Proof.
  intros H. unfold dbFindData, dbAddData in *.
  destruct (List.find (has_uuid id) t) as [r|] eqn:Hf; [|congruence].
  rewrite (find_app_some _ _ _ _ Hf). reflexivity.
Qed.

(** After [dbDeleteValue(id)] no row carries [id]. *)
Lemma dbFindData_delete id t : dbFindData id (dbDeleteValue id t) = JFalse.
Proof.
  apply dbFindData_false. unfold dbDeleteValue.
  induction t as [|r t IH]; simpl; [reflexivity|].
  destruct (has_uuid id r) eqn:Hr; simpl; [|rewrite Hr]; exact IH.
Qed.

Lemma dbFindData_delete_keeps id id' t :
  dbFindData id t = JFalse -> dbFindData id (dbDeleteValue id' t) = JFalse.
Proof.
  rewrite !dbFindData_false. apply find_filter_none.
Qed.

Lemma dbFindData_expire_keeps id now t :
  dbFindData id t = JFalse -> dbFindData id (dbExpireValue now t) = JFalse.
Proof.
  rewrite !dbFindData_false. apply find_filter_none.
Qed.

(** [substring(0, 21)] leaves a string of at most 21 characters alone. *)
Lemma substring_short (m : nat) (s : string) :
  (String.length s <= m)%nat -> String.substring 0 m s = s.
Proof.
  revert m. induction s as [|a s IH]; intros m Hm.
  - destruct m; reflexivity.
  - destruct m as [|m]; simpl in Hm; [lia|].
    simpl. rewrite IH by lia. reflexivity.
Qed.

Lemma noteIdOf_short (s : string) :
  (String.length s <= 21)%nat -> noteIdOf s = s.
Proof. apply substring_short. Qed.

(** ... and cuts whatever follows the first 21 characters. *)
Lemma substring_append (m : nat) (s rest : string) :
  String.length s = m -> String.substring 0 m (s ++ rest) = s.
Proof.
  revert m. induction s as [|a s IH]; intros m Hm; simpl in Hm; subst m.
  - simpl. destruct rest; reflexivity.
  - simpl. rewrite IH by reflexivity. reflexivity.
Qed.

Lemma noteIdOf_append (id rest : string) :
  String.length id = 21%nat -> noteIdOf (id ++ rest) = id.
Proof. apply substring_append. Qed.

Lemma substring_empty (m : nat) (s : string) :
  String.substring 0 (S m) s = "" -> s = "".
Proof. destruct s; simpl; [reflexivity|discriminate]. Qed.

Lemma truthy_string (v : jsval) :
  truthy v = true -> exists s, v = JString s /\ s <> "".
Proof.
  destruct v as [| |s]; simpl; try discriminate.
  intros H. exists s. split; [reflexivity|].
  apply String.eqb_neq. destruct (s =? "")%string; [discriminate|reflexivity].
Qed.

Lemma truthy_JString (s : string) : s <> "" -> truthy (JString s) = true.
Proof. intros H%String.eqb_neq. simpl. rewrite H. reflexivity. Qed.

(** The two branches of [app.get('/')] for a non-empty query. *)
Lemma app_get_found (n : string) t :
  n <> "" -> truthy (dbFindData (noteIdOf n) t) = true ->
  app_get (Some n) t =
    (notePage (dbFindData (noteIdOf n) t), dbDeleteValue (noteIdOf n) t).
Proof.
  intros Hn%String.eqb_neq Ht. unfold app_get. rewrite Hn. simpl.
  rewrite Ht. reflexivity.
Qed.

Lemma app_get_missing (n : string) t :
  n <> "" -> truthy (dbFindData (noteIdOf n) t) = false ->
  app_get (Some n) t = (notFoundPage, t).
Proof.
  intros Hn%String.eqb_neq Ht. unfold app_get. rewrite Hn. simpl.
  rewrite Ht. reflexivity.
Qed.

(** A retrieval only ever deletes. *)
Lemma app_get_keeps_absent (n : option string) id t :
  dbFindData id t = JFalse -> dbFindData id (snd (app_get n t)) = JFalse.
Proof.
  intros H. unfold app_get. destruct n as [n|]; [|exact H].
  destruct (negb (n =? "")%string); [|exact H].
  destruct (truthy _); simpl; [|exact H].
  apply dbFindData_delete_keeps, H.
Qed.

(** No event other than a submission of [id] brings [id] into the table. *)
Lemma apply_event_keeps_absent (e : event) id t :
  ~ issues id e ->
  dbFindData id t = JFalse -> dbFindData id (apply_event e t) = JFalse.
Proof.
  destruct e as [id' c now|n|now]; simpl; intros Hi H.
  - rewrite dbFindData_add_other; auto.
  - apply app_get_keeps_absent, H.
  - apply dbFindData_expire_keeps, H.
Qed.

Lemma replay_keeps_absent (h : list event) id t :
  never_issues id h ->
  dbFindData id t = JFalse -> dbFindData id (replay h t) = JFalse.
Proof.
  unfold replay, never_issues. revert t.
  induction h as [|e h IH]; intros t Hh H; simpl; [exact H|].
  inversion Hh; subst. apply IH; [assumption|].
  apply apply_event_keeps_absent; assumption.
Qed.

Lemma replay_app (h1 h2 : list event) t :
  replay (List.app h1 h2) t = replay h2 (replay h1 t).
Proof. unfold replay. apply List.fold_left_app. Qed.

End TableFacts.

(* ===================================================================== *)
(** * The collision loop                                                  *)
(* ===================================================================== *)

Section LoopFacts.

Variable nanoid : nat -> string.

(** With [n] colliding candidates ahead, the loop returns after exactly
    [n + 1] iterations, having inserted under the first free candidate. *)
Lemma encrypt_loop_first_free (c : option string) (now : Z) (t : table)
    (n : nat) :
  forall fuel k,
    first_free nanoid k n t ->
    encrypt_loop nanoid fuel c now k t =
      if (n <? fuel)%nat
      then Some (nanoid (k + n), S (k + n),
                 dbAddData (nanoid (k + n)) c now t)
      else None.
Proof.
  induction n as [|n IH]; intros fuel k [Hbusy Hfree].
  - rewrite Nat.add_0_r in *. destruct fuel as [|fuel]; simpl; [reflexivity|].
    rewrite Hfree. reflexivity.
  - destruct fuel as [|fuel]; [reflexivity|]. simpl encrypt_loop.
    assert (H0 : truthy (dbFindData (nanoid k) t) = true).
    { specialize (Hbusy O). rewrite Nat.add_0_r in Hbusy. apply Hbusy. lia. }
    rewrite H0. simpl negb. cbv iota.
    rewrite (IH fuel (S k)).
    + replace (S k + n)%nat with (k + S n)%nat by lia.
      change (S n <? S fuel)%nat with (n <? fuel)%nat. reflexivity.
    + split.
      * intros j Hj. replace (S k + j)%nat with (k + S j)%nat by lia.
        apply Hbusy. lia.
      * replace (S k + n)%nat with (k + S n)%nat by lia. exact Hfree.
Qed.

(** Whatever the loop returns, it is the first free candidate, and the
    table grew by exactly that row. *)
Lemma encrypt_loop_inv (c : option string) (now : Z) (t : table) :
  forall fuel k id k' t',
    encrypt_loop nanoid fuel c now k t = Some (id, k', t') ->
    exists n, (n < fuel)%nat /\ first_free nanoid k n t /\
              id = nanoid (k + n) /\ k' = S (k + n) /\
              t' = dbAddData id c now t.
Proof.
  induction fuel as [|fuel IH]; intros k id k' t' H; simpl in H;
    [discriminate|].
  destruct (truthy (dbFindData (nanoid k) t)) eqn:Hk; simpl in H.
  - apply IH in H as (n & Hn & [Hbusy Hfree] & -> & -> & ->).
    exists (S n). unfold first_free.
    replace (k + S n)%nat with (S k + n)%nat by lia.
    split; [lia|]. split; [|auto].
    split; [|exact Hfree].
    intros [|j] Hj.
    + rewrite Nat.add_0_r. exact Hk.
    + replace (k + S j)%nat with (S k + j)%nat by lia. apply Hbusy. lia.
  - injection H as <- <- <-. exists O. rewrite Nat.add_0_r.
    split; [lia|]. split; [|auto].
    split; [intros j Hj; lia|]. rewrite Nat.add_0_r. exact Hk.
Qed.

(** While the generator keeps returning an id that is taken, the loop does
    not return, whatever the number of iterations. *)
Lemma encrypt_loop_stuck (c : option string) (now : Z) (t : table) :
  (forall j, truthy (dbFindData (nanoid j) t) = true) ->
  forall fuel k, encrypt_loop nanoid fuel c now k t = None.
Proof.
  intros Hbusy. induction fuel as [|fuel IH]; intros k; simpl; [reflexivity|].
  rewrite Hbusy. simpl. apply IH.
Qed.

End LoopFacts.

(* ===================================================================== *)
(** * Retrieval                                                           *)
(* ===================================================================== *)

Lemma find_filter_some (p q : row -> bool) (t : table) (r : row) :
  List.find p t = Some r -> q r = true ->
  List.find p (List.filter q t) = Some r.
Proof.
  induction t as [|r' t IH]; simpl; [discriminate|].
  destruct (p r') eqn:Hp; intros H Hq.
  - injection H as ->. rewrite Hq. simpl. rewrite Hp. reflexivity.
  - destruct (q r'); simpl; [rewrite Hp|]; auto.
Qed.

(** Events that leave a record in place leave it the first of its id. *)
Lemma replay_leaves (id : string) (r : row) (h : list event) :
  uuid r = id ->
  forall t,
    Forall (leaves id r) h ->
    List.find (has_uuid id) t = Some r ->
    List.find (has_uuid id) (replay h t) = Some r.
Proof.
  intros Hid. unfold replay.
  induction h as [|e h IH]; intros t Hh Hf; simpl; [exact Hf|].
  inversion Hh as [|e' h' He Hh']; subst e' h'.
  apply IH; [exact Hh'|].
  destruct e as [id' c now|n|now]; simpl in *.
  - apply find_app_some, Hf.
  - unfold app_get. destruct n as [s|]; [|exact Hf].
    destruct (negb (s =? "")%string); [|exact Hf].
    destruct (truthy _); simpl; [|exact Hf].
    apply find_filter_some; [exact Hf|].
    specialize (He s eq_refl).
    unfold has_uuid. rewrite Hid.
    apply negb_true_iff, String.eqb_neq. congruence.
  - apply find_filter_some; [exact Hf|]. rewrite He. reflexivity.
Qed.

Lemma length_nonempty (s : string) : String.length s = 21%nat -> s <> "".
Proof. destruct s; simpl; [discriminate|]. intros _ H. discriminate. Qed.

(** A retrieval of an id no row carries answers "not found" and changes
    nothing. *)
Lemma app_get_absent (n : string) (t : table) :
  n <> "" -> dbFindData (noteIdOf n) t = JFalse ->
  app_get (Some n) t = (notFoundPage, t).
Proof.
  intros Hn H. apply app_get_missing; [exact Hn|]. rewrite H. reflexivity.
Qed.

(** C1 (amended).  A non-empty blob submitted under an id the table held no
    record of is delivered by the first retrieval of that id, which removes
    the record; every later retrieval of the id, after any further events
    that do not bind the id again, answers "not found".  Events between
    the submission and the first retrieval may be anything that leaves the
    record in place. *)
Theorem exactly_once_retrieval (nanoid : nat -> string) (fuel : nat)
    (host blob : string) (now : Z) (k : nat) (t : table)
    (id : string) (k' : nat) (t1 : table) (h0 : list event) :
  (forall j, String.length (nanoid j) = 21%nat) ->
  blob <> "" ->
  dbFindData id t = JFalse ->
  encrypt_loop nanoid fuel (Some blob) now k t = Some (id, k', t1) ->
  Forall (leaves id (Row id (Some blob) (getTimeStamp now))) h0 ->
  app_post_encrypt nanoid fuel host (Some blob) now k t =
    Some (Json [("id", noteUrl host id)], k', t1)
  /\ app_get (Some id) (replay h0 t1) =
       (notePage (JString blob), dbDeleteValue id (replay h0 t1))
  /\ forall h, never_issues id h ->
       app_get (Some id) (replay h (dbDeleteValue id (replay h0 t1))) =
         (notFoundPage, replay h (dbDeleteValue id (replay h0 t1))).
Proof.
  intros Hlen Hblob Hfresh Hloop Hquiet.
  destruct (encrypt_loop_inv _ _ _ _ _ _ _ _ _ Hloop)
    as (n & _ & _ & Hid & _ & Ht1).
  assert (Hne : id <> "") by (subst id; apply length_nonempty, Hlen).
  assert (Hcut : noteIdOf id = id).
  { apply noteIdOf_short. subst id. rewrite Hlen. lia. }
  assert (Hrow : List.find (has_uuid id) (replay h0 t1)
                 = Some (Row id (Some blob) (getTimeStamp now))).
  { apply replay_leaves; [reflexivity|exact Hquiet|].
    rewrite Ht1. unfold dbAddData.
    apply dbFindData_false in Hfresh.
    rewrite (find_app_none _ _ _ Hfresh). simpl.
    unfold has_uuid. simpl. rewrite String.eqb_refl. reflexivity. }
  assert (Hfound : dbFindData id (replay h0 t1) = JString blob).
  { unfold dbFindData. rewrite Hrow. reflexivity. }
  split; [|split].
  - unfold app_post_encrypt. rewrite Hloop. reflexivity.
  - rewrite app_get_found; rewrite ?Hcut, ?Hfound; auto using truthy_JString.
  - intros h Hh. apply app_get_absent; [exact Hne|]. rewrite Hcut.
    apply replay_keeps_absent; [exact Hh|]. apply dbFindData_delete.
Qed.

(** The sample generator returns 21 characters at every call. *)
Lemma sampleGenerator_length (j : nat) :
  String.length (sampleGenerator j) = 21%nat.
Proof. reflexivity. Qed.

Lemma exactly_once_retrieval_witness :
  let t1 := [Row (sampleGenerator 0) (Some "abc") (getTimeStamp newYear2025)] in
  app_post_encrypt sampleGenerator 1 "notelock.example" (Some "abc")
      newYear2025 0 [] =
    Some (Json [("id", noteUrl "notelock.example" (sampleGenerator 0))],
          1%nat, t1)
  /\ app_get (Some (sampleGenerator 0))
       (replay [Swept (newYear2025 + 3600000)] t1) =
       (notePage (JString "abc"),
        dbDeleteValue (sampleGenerator 0)
          (replay [Swept (newYear2025 + 3600000)] t1))
  /\ forall h, never_issues (sampleGenerator 0) h ->
       app_get (Some (sampleGenerator 0))
         (replay h (dbDeleteValue (sampleGenerator 0)
                      (replay [Swept (newYear2025 + 3600000)] t1))) =
         (notFoundPage,
          replay h (dbDeleteValue (sampleGenerator 0)
                      (replay [Swept (newYear2025 + 3600000)] t1))).
Proof.
  apply (exactly_once_retrieval sampleGenerator 1 "notelock.example" "abc"
           newYear2025 0 [] (sampleGenerator 0) 1
           [Row (sampleGenerator 0) (Some "abc") (getTimeStamp newYear2025)]
           [Swept (newYear2025 + 3600000)]).
  - intros j. reflexivity.
  - discriminate.
  - reflexivity.
  - reflexivity.
  - constructor; [vm_compute; reflexivity|constructor].
Defined.

(** C1, as stated, fails twice over on one run.  An empty blob is accepted
    and its id handed out, yet no retrieval ever consumes that record; and
    because the collision check takes such an id for free, the same id is
    handed out again for the next blob, whose first retrieval then answers
    "not found" instead of delivering it. *)
Lemma reissued_id_is_not_retrievable :
  let t1 := [Row sampleId (Some "") "2025-01-01T00:00:00.000Z"] in
  let t2 := [Row sampleId (Some "") "2025-01-01T00:00:00.000Z";
             Row sampleId (Some "abc") "2025-01-01T00:00:01.000Z"] in
  encrypt_loop stuckGenerator 1 (Some "") newYear2025 0 []
    = Some (sampleId, 1%nat, t1)
  /\ app_get (Some sampleId) t1 = (notFoundPage, t1)
  /\ encrypt_loop stuckGenerator 1 (Some "abc") (newYear2025 + 1000) 1 t1
    = Some (sampleId, 2%nat, t2)
  /\ app_get (Some sampleId) t2 = (notFoundPage, t2)
  /\ notFoundPage <> notePage (JString "abc").
Proof.
  repeat split; try (vm_compute; reflexivity). discriminate.
Qed.

(* ===================================================================== *)
(** * Submission                                                          *)
(* ===================================================================== *)

(** C2 (amended).  The collision loop has no attempt bound and no failure
    exit: with [n] colliding candidates ahead, for any [n], it makes exactly
    [n + 1] attempts and returns the first free candidate; cut short of
    that it is still running. *)
Theorem collision_loop_runs_to_first_free_id (nanoid : nat -> string)
    (c : option string) (now : Z) (t : table) (k n fuel : nat) :
  first_free nanoid k n t ->
  encrypt_loop nanoid fuel c now k t =
    if (n <? fuel)%nat
    then Some (nanoid (k + n)%nat, S (k + n)%nat, dbAddData (nanoid (k + n)%nat) c now t)
    else None.
Proof. intros H. apply encrypt_loop_first_free, H. Qed.

Lemma collision_loop_runs_to_first_free_id_witness :
  let t := [Row (sampleGenerator 0) (Some "abc") (getTimeStamp newYear2025);
            Row (sampleGenerator 1) (Some "def") (getTimeStamp newYear2025)] in
  first_free sampleGenerator 0 2 t
  /\ encrypt_loop sampleGenerator 2 (Some "ghi") newYear2025 0 t = None
  /\ encrypt_loop sampleGenerator 3 (Some "ghi") newYear2025 0 t =
       Some (sampleGenerator 2, 3%nat,
             dbAddData (sampleGenerator 2) (Some "ghi") newYear2025 t).
Proof.
  assert (H : first_free sampleGenerator 0 2
                [Row (sampleGenerator 0) (Some "abc") (getTimeStamp newYear2025);
                 Row (sampleGenerator 1) (Some "def") (getTimeStamp newYear2025)]).
  { split.
    - intros [|[|j]] Hj; [reflexivity|reflexivity|lia].
    - reflexivity. }
  split; [exact H|]. split.
  - apply (collision_loop_runs_to_first_free_id sampleGenerator (Some "ghi")
             newYear2025 _ 0 2 2 H).
  - apply (collision_loop_runs_to_first_free_id sampleGenerator (Some "ghi")
             newYear2025 _ 0 2 3 H).
Defined.

(** No number of attempts is enough for every request: C2 as stated is
    false.  Against a table holding [sampleId], the loop fed by
    [stuckGenerator] outlasts any bound. *)
Lemma collision_loop_is_unbounded :
  ~ exists bound : nat,
      forall (nanoid : nat -> string) (c : option string) (now : Z)
             (k : nat) (t : table),
        is_Some (encrypt_loop nanoid bound c now k t).
Proof.
  intros [bound H].
  specialize (H stuckGenerator (Some "abc") newYear2025 O
                [Row sampleId (Some "abc") (getTimeStamp newYear2025)]).
  rewrite encrypt_loop_stuck in H.
  - destruct H as [x Hx]. discriminate.
  - intros j. reflexivity.
Qed.




(* ===================================================================== *)
(** * Absence                                                             *)
(* ===================================================================== *)

(** Whatever the cause, an absent id is an id no row carries. *)
Lemma absence_no_row (id : string) (h : list event) :
  absence id h -> dbFindData id (replay h []) = JFalse.
Proof.
  intros [Hnever | h1 h2 n -> Hn Hcut Hfound Hquiet
                 | h1 h2 now -> _ Hgone Hquiet].
  - apply replay_keeps_absent; [exact Hnever|reflexivity].
  - rewrite replay_app. change (replay (Retrieved (Some n) :: h2) ?t)
      with (replay h2 (snd (app_get (Some n) t))).
    apply replay_keeps_absent; [exact Hquiet|].
    rewrite app_get_found by (rewrite ?Hcut; assumption).
    simpl. rewrite Hcut. apply dbFindData_delete.
  - change (Swept now :: h2) with (List.app [Swept now] h2).
    rewrite List.app_assoc, replay_app.
    apply replay_keeps_absent; assumption.
Qed.

(** C4.  Two retrievals of ids that are absent, each for any of the three
    causes (never issued, already consumed, already expired), are answered
    alike: both get the "not found" page, and neither changes the table. *)
Theorem not_found_is_uniform (id1 id2 n1 n2 : string) (h1 h2 : list event) :
  absence id1 h1 -> absence id2 h2 ->
  n1 <> "" -> noteIdOf n1 = id1 ->
  n2 <> "" -> noteIdOf n2 = id2 ->
  fst (app_get (Some n1) (replay h1 [])) = fst (app_get (Some n2) (replay h2 []))
  /\ app_get (Some n1) (replay h1 []) = (notFoundPage, replay h1 [])
  /\ app_get (Some n2) (replay h2 []) = (notFoundPage, replay h2 []).
Proof.
  intros Ha1%absence_no_row Ha2%absence_no_row Hn1 <- Hn2 <-.
  rewrite (app_get_absent n1), (app_get_absent n2) by assumption.
  repeat split.
Qed.

Lemma not_found_is_uniform_witness :
  let consumed := [Submitted sampleId (Some "abc") newYear2025;
                   Retrieved (Some sampleId)] in
  let expired := [Submitted (sampleGenerator 7) (Some "def") newYear2025;
                  Swept (newYear2025 + 50 * Clock.msPerHour)] in
  fst (app_get (Some sampleId) (replay consumed []))
    = fst (app_get (Some (sampleGenerator 7)) (replay expired []))
  /\ app_get (Some sampleId) (replay consumed [])
     = (notFoundPage, replay consumed [])
  /\ app_get (Some (sampleGenerator 7)) (replay expired [])
     = (notFoundPage, replay expired []).
Proof.
  apply (not_found_is_uniform sampleId (sampleGenerator 7)
           sampleId (sampleGenerator 7)).
  - apply (AlreadyConsumed sampleId _
             [Submitted sampleId (Some "abc") newYear2025] [] sampleId).
    + reflexivity.
    + discriminate.
    + reflexivity.
    + reflexivity.
    + constructor.
  - apply (AlreadyExpired (sampleGenerator 7) _
             [Submitted (sampleGenerator 7) (Some "def") newYear2025] []
             (newYear2025 + 50 * Clock.msPerHour)).
    + reflexivity.
    + discriminate.
    + vm_compute. reflexivity.
    + constructor.
  - discriminate.
  - reflexivity.
  - discriminate.
  - reflexivity.
Defined.

(* ===================================================================== *)
(** * The 21-character prefix                                             *)
(* ===================================================================== *)

(** The reply and the table after [GET /] depend on the query only
    through its first 21 characters. *)
Lemma app_get_prefix (n n' : string) (t : table) :
  noteIdOf n = noteIdOf n' -> app_get (Some n) t = app_get (Some n') t.
Proof.
  intros H. unfold app_get.
  destruct (String.eqb_spec n "") as [->|Hn].
  - symmetry in H. apply substring_empty in H. subst n'. reflexivity.
  - destruct (String.eqb_spec n' "") as [->|Hn'].
    + apply substring_empty in H. contradiction.
    + simpl. rewrite H. reflexivity.
Qed.

(** C9.  Only the first 21 characters of the query are looked up: a record
    that is the one filed under its id, with a blob to deliver, is
    delivered (and removed) for every query whose first 21 characters are
    that id, whatever follows them; and two queries with the same
    21-character prefix get the same reply and leave the same table. *)
Theorem retrieval_reads_21_char_prefix (t : table) (id blob ts : string)
    (n n' : string) :
  List.find (has_uuid id) t = Some (Row id (Some blob) ts) ->
  id <> "" -> blob <> "" ->
  noteIdOf n = id -> noteIdOf n' = id ->
  app_get (Some n) t = (notePage (JString blob), dbDeleteValue id t)
  /\ app_get (Some n') t = app_get (Some n) t
  /\ (forall (m m' : string) (t' : table),
        noteIdOf m = noteIdOf m' -> app_get (Some m) t' = app_get (Some m') t').
Proof.
  intros Hrow Hid Hblob Hn Hn'.
  assert (Hne : n <> "") by (intros ->; apply Hid; rewrite <- Hn; reflexivity).
  assert (Hfound : dbFindData id t = JString blob).
  { unfold dbFindData. rewrite Hrow. reflexivity. }
  split; [|split].
  - rewrite app_get_found; rewrite ?Hn, ?Hfound; auto using truthy_JString.
  - apply app_get_prefix. congruence.
  - intros m m' t'. apply app_get_prefix.
Qed.

Lemma retrieval_reads_21_char_prefix_witness :
  let t := [Row sampleId (Some "abc") (getTimeStamp newYear2025)] in
  app_get (Some (sampleId ++ "#k3y-and-anything-else")%string) t
    = (notePage (JString "abc"), dbDeleteValue sampleId t)
  /\ app_get (Some sampleId) t
     = app_get (Some (sampleId ++ "#k3y-and-anything-else")%string) t
  /\ (forall (m m' : string) (t' : table),
        noteIdOf m = noteIdOf m' -> app_get (Some m) t' = app_get (Some m') t').
Proof.
  apply (retrieval_reads_21_char_prefix
           [Row sampleId (Some "abc") (getTimeStamp newYear2025)]
           sampleId "abc" (getTimeStamp newYear2025)).
  - reflexivity.
  - discriminate.
  - discriminate.
  - reflexivity.
  - reflexivity.
Defined.

(* ===================================================================== *)
(** * Records with nothing to deliver                                     *)
(* ===================================================================== *)

Lemma blank_falsy (id : string) (c : option string) (ts : string) (t : table) :
  List.find (has_uuid id) t = Some (Row id c ts) -> blank c ->
  truthy (dbFindData id t) = false.
Proof.
  intros Hrow [-> | ->]; unfold dbFindData; rewrite Hrow; reflexivity.
Qed.

(** C10.  A record whose blob is empty or missing is treated as absent:
    retrieving its id answers "not found" and deletes nothing; the
    collision check takes the id for free, so a submission offered that id
    first files a second record under it; and a retrieval that does deliver
    something delivers a non-empty blob. *)
Theorem blank_record_is_treated_as_absent (t : table) (id ts : string)
    (c : option string) (n : string) :
  List.find (has_uuid id) t = Some (Row id c ts) -> blank c ->
  n <> "" -> noteIdOf n = id ->
  app_get (Some n) t = (notFoundPage, t)
  /\ (forall (nanoid : nat -> string) (fuel k : nat) (c' : option string)
             (now : Z),
        nanoid k = id ->
        encrypt_loop nanoid (S fuel) c' now k t =
          Some (id, S k, dbAddData id c' now t))
  /\ (forall (m : string) (r : response) (t' : table),
        m <> "" -> app_get (Some m) t = (r, t') -> r <> notFoundPage ->
        exists s, s <> "" /\ dbFindData (noteIdOf m) t = JString s
                  /\ r = notePage (JString s)
                  /\ t' = dbDeleteValue (noteIdOf m) t).
Proof.
  intros Hrow Hblank Hn Hcut.
  pose proof (blank_falsy _ _ _ _ Hrow Hblank) as Hfalsy.
  split; [|split].
  - apply app_get_missing; [exact Hn|]. rewrite Hcut. exact Hfalsy.
  - intros nanoid fuel k c' now Hk. simpl. rewrite Hk, Hfalsy. reflexivity.
  - intros m r t' Hm Hget Hr.
    destruct (truthy (dbFindData (noteIdOf m) t)) eqn:Ht.
    + rewrite (app_get_found _ _ Hm Ht) in Hget. injection Hget as <- <-.
      apply truthy_string in Ht as (s & Hs & Hne). exists s.
      rewrite Hs. auto.
    + rewrite (app_get_missing _ _ Hm Ht) in Hget. injection Hget as <- <-.
      contradiction.
Qed.

Lemma blank_record_is_treated_as_absent_witness :
  let t := [Row sampleId (Some "") (getTimeStamp newYear2025)] in
  app_get (Some sampleId) t = (notFoundPage, t)
  /\ encrypt_loop stuckGenerator 1 (Some "abc") (newYear2025 + 1000) 1 t =
       Some (sampleId, 2%nat, dbAddData sampleId (Some "abc") (newYear2025 + 1000) t).
Proof.
  destruct (blank_record_is_treated_as_absent
              [Row sampleId (Some "") (getTimeStamp newYear2025)]
              sampleId (getTimeStamp newYear2025) (Some "") sampleId)
    as (Hget & Hloop & _).
  - reflexivity.
  - right. reflexivity.
  - discriminate.
  - reflexivity.
  - split; [exact Hget|]. apply (Hloop stuckGenerator). reflexivity.
Defined.

(* ===================================================================== *)
(** * Expiry                                                              *)
(* ===================================================================== *)

(** Two texts that agree in length up to a ['T'] in the one and a blank in
    the other compare by that first part alone, and the one with the ['T']
    is the greater when the first parts are equal. *)
Lemma compare_T_blank (p q r r' : string) :
  String.length p = String.length q ->
  String.compare (p ++ String "T" r) (q ++ String " " r') =
    match String.compare p q with
    | Eq => Gt
    | ne => ne
    end.
Proof.
  revert q. induction p as [|a p IH]; intros [|b q] Hlen;
    simpl in Hlen; try discriminate.
  - reflexivity.
  - simpl. destruct (Ascii.compare a b); try reflexivity.
    apply IH. lia.
Qed.

Lemma date10_length (t : Z) : String.length (Clock.date10 t) = 10%nat.
Proof.
  unfold Clock.date10.
  destruct (Clock.civil_from_days (t / Clock.msPerDay)) as [[y m] d].
  reflexivity.
Qed.

(** The sweep reads the calendar dates only: a row stamped at [t0] is
    deleted at [now] exactly when the UTC date of [t0] is earlier than the
    UTC date of [now] minus the lifetime; the time of day plays no part. *)
Lemma expired_by_date (id : string) (c : option string) (t0 now : Z) :
  expired now (Row id c (getTimeStamp t0)) =
    String.ltb (Clock.date10 t0)
               (Clock.date10 (now + - noteLife * Clock.msPerHour)).
Proof.
  unfold expired, getTimeStamp, Clock.toISOString, Clock.datetime.
  cbv zeta. simpl created. unfold String.ltb.
  change ("T" ++ ?r)%string with (String "T" r).
  change (" " ++ ?r)%string with (String " " r).
  rewrite compare_T_blank by (rewrite !date10_length; reflexivity).
  destruct (String.compare _ _); reflexivity.
Qed.

(** C5, evaluated where it fails.  A note stored at 2025-01-01T00:00:00Z
    and never retrieved: the sweep runs every five minutes; the 300th tick,
    25 hours after the insertion, finds the note not expired although its
    age exceeds the 24-hour lifetime, and a retrieval after it delivers
    the note.  The note goes at the tick 48 hours after the insertion. *)
Theorem sweep_keeps_note_past_lifetime :
  let t0 := newYear2025 in
  let t1 := dbAddData sampleId (Some "abc") t0 [] in
  t0 + 300 * expireInterval = t0 + 25 * Clock.msPerHour
  /\ expired (t0 + 25 * Clock.msPerHour)
       (Row sampleId (Some "abc") (getTimeStamp t0)) = false
  /\ sweepTicks 300 t0 t1 = t1
  /\ app_get (Some sampleId) (sweepTicks 300 t0 t1)
     = (notePage (JString "abc"), [])
  /\ sweepTicks 575 t0 t1 = t1
  /\ sweepTicks 576 t0 t1 = [].
Proof. vm_compute. repeat split. Qed.

(* ===================================================================== *)
(** * The window counter                                                  *)
(* ===================================================================== *)

Section CounterFacts.

Variable W : Z.
Variable c : string.

Implicit Types (cs : gmap string Limit.window) (reqs : list (string * Z)).

(** A request of an idle client opens a window and is its first. *)
Lemma hit_idle cs (t0 : Z) :
  idle W c t0 cs ->
  Limit.hit W c t0 cs = (1, <[c := Limit.Window t0 1]> cs).
Proof.
  unfold idle, Limit.hit. destruct (cs !! c) as [w|]; [|reflexivity].
  intros H%Z.ltb_lt. rewrite H. reflexivity.
Qed.

(** A request inside the open window is counted in it. *)
Lemma hit_open cs (t0 j t : Z) :
  cs !! c = Some (Limit.Window t0 j) -> t <= t0 + W ->
  Limit.hit W c t cs = (j + 1, <[c := Limit.Window t0 (j + 1)]> cs).
Proof.
  unfold Limit.hit. intros -> Ht. simpl.
  assert (H : (t0 + W <? t) = false) by (apply Z.ltb_ge; lia).
  rewrite H. reflexivity.
Qed.

(** Requests of other clients do not touch this client's window. *)
Lemma hit_other cs (c' : string) (t : Z) :
  c' <> c -> snd (Limit.hit W c' t cs) !! c = cs !! c.
Proof.
  intros Hne. unfold Limit.hit. simpl. apply lookup_insert_ne, Hne.
Qed.

Lemma of_client_cons_same {A : Type} (x : A) (l : list (string * A)) :
  of_client c ((c, x) :: l) = x :: of_client c l.
Proof. unfold of_client. simpl. rewrite String.eqb_refl. reflexivity. Qed.

Lemma of_client_cons_other {A : Type} (c' : string) (x : A)
    (l : list (string * A)) :
  c' <> c -> of_client c ((c', x) :: l) = of_client c l.
Proof.
  intros H%String.eqb_neq. unfold of_client. simpl. rewrite H. reflexivity.
Qed.

Lemma hitAll_cons (c' : string) (t : Z) reqs cs :
  hitAll W ((c', t) :: reqs) cs =
    ((c', fst (Limit.hit W c' t cs))
       :: fst (hitAll W reqs (snd (Limit.hit W c' t cs))),
     snd (hitAll W reqs (snd (Limit.hit W c' t cs)))).
Proof.
  cbn [hitAll]. destruct (Limit.hit W c' t cs) as [n cs']. cbn [fst snd].
  destruct (hitAll W reqs cs') as [ns cs'']. reflexivity.
Qed.

(** Inside an open window holding [j] requests, the client's requests are
    counted [j + 1], [j + 2], ... whatever other clients do in between. *)
Lemma hitAll_open (t0 : Z) reqs :
  forall cs j,
    cs !! c = Some (Limit.Window t0 j) ->
    Forall (fun t => t <= t0 + W) (of_client c reqs) ->
    of_client c (fst (hitAll W reqs cs)) =
      counts_from j (List.length (of_client c reqs))
    /\ snd (hitAll W reqs cs) !! c =
         Some (Limit.Window t0 (j + Z.of_nat (List.length (of_client c reqs)))).
Proof.
  induction reqs as [|[c' t] reqs IH]; intros cs j Hw Hin.
  - simpl. rewrite Z.add_0_r. auto.
  - rewrite hitAll_cons. cbn [fst snd].
    destruct (String.eqb_spec c' c) as [->|Hne].
    + rewrite of_client_cons_same in Hin.
      inversion Hin as [|? ? Ht Hin']; subst.
      rewrite (hit_open _ _ _ _ Hw Ht). cbn [fst snd].
      destruct (IH (<[c:=Limit.Window t0 (j + 1)]> cs) (j + 1)) as [IH1 IH2];
        [apply lookup_insert_eq|exact Hin'|].
      rewrite !of_client_cons_same. cbn [List.length counts_from].
      rewrite IH1, IH2.
      split; [reflexivity|]. f_equal. f_equal. lia.
    + rewrite of_client_cons_other in Hin by exact Hne.
      rewrite !of_client_cons_other by exact Hne.
      apply IH; [|exact Hin].
      rewrite hit_other by exact Hne. exact Hw.
Qed.

(** From idle, the client's requests inside one window are counted
    1, 2, 3, ... *)
Lemma hitAll_idle (t0 : Z) (ts : list Z) reqs :
  forall cs,
    idle W c t0 cs ->
    of_client c reqs = t0 :: ts ->
    Forall (fun t => t <= t0 + W) ts ->
    of_client c (fst (hitAll W reqs cs)) = counts_from 0 (S (List.length ts))
    /\ snd (hitAll W reqs cs) !! c =
         Some (Limit.Window t0 (1 + Z.of_nat (List.length ts))).
Proof.
  induction reqs as [|[c' t] reqs IH]; intros cs Hidle Hreqs Hin.
  - discriminate.
  - rewrite hitAll_cons. cbn [fst snd].
    destruct (String.eqb_spec c' c) as [->|Hne].
    + rewrite of_client_cons_same in Hreqs. injection Hreqs as -> Hts.
      rewrite (hit_idle _ _ Hidle). cbn [fst snd].
      destruct (hitAll_open t0 reqs (<[c:=Limit.Window t0 1]> cs) 1)
        as [H1 H2]; [apply lookup_insert_eq|rewrite Hts; exact Hin|].
      rewrite of_client_cons_same, H1, H2, Hts. auto.
    + rewrite of_client_cons_other in Hreqs by exact Hne.
      rewrite of_client_cons_other by exact Hne.
      apply IH; [|exact Hreqs|exact Hin].
      unfold idle in *. rewrite hit_other by exact Hne. exact Hidle.
Qed.

Lemma of_client_map {A B : Type} (f : A -> B) (l : list (string * A)) :
  of_client c (List.map (fun p => (fst p, f (snd p))) l) =
    List.map f (of_client c l).
Proof.
  unfold of_client. induction l as [|[c' x] l IH]; simpl; [reflexivity|].
  destruct (c' =? c)%string; simpl; rewrite IH; reflexivity.
Qed.

End CounterFacts.

(** A hard limiter is the window counter followed by the cap test. *)
Lemma limitAll_hitAll (o : Limit.rateLimitOptions) (reqs : list (string * Z)) :
  forall cs,
    limitAll o reqs cs =
      (List.map (fun p => (fst p, verdict_at o (snd p)))
         (fst (hitAll (Limit.rl_windowMs o) reqs cs)),
       snd (hitAll (Limit.rl_windowMs o) reqs cs)).
Proof.
  induction reqs as [|[c t] reqs IH]; intros cs; [reflexivity|].
  cbn [limitAll]. rewrite hitAll_cons. unfold Limit.rateLimit.
  destruct (Limit.hit (Limit.rl_windowMs o) c t cs) as [n cs'].
  cbn [fst snd]. rewrite IH.
  destruct (hitAll (Limit.rl_windowMs o) reqs cs') as [ns cs''].
  reflexivity.
Qed.

(** The slowdown is the window counter followed by the delay rule. *)
Lemma slowAll_hitAll (o : Limit.slowDownOptions) (reqs : list (string * Z)) :
  forall cs,
    slowAll o reqs cs =
      (List.map (fun p => (fst p, Limit.delayFor o (snd p)))
         (fst (hitAll (Limit.sd_windowMs o) reqs cs)),
       snd (hitAll (Limit.sd_windowMs o) reqs cs)).
Proof.
  induction reqs as [|[c t] reqs IH]; intros cs; [reflexivity|].
  cbn [slowAll]. rewrite hitAll_cons. unfold Limit.slowDown.
  destruct (Limit.hit (Limit.sd_windowMs o) c t cs) as [n cs'].
  cbn [fst snd]. rewrite IH.
  destruct (hitAll (Limit.sd_windowMs o) reqs cs') as [ns cs''].
  reflexivity.
Qed.

(* ===================================================================== *)
(** * The hard limiters                                                   *)
(* ===================================================================== *)

Lemma counts_from_snoc (j : Z) (n : nat) :
  counts_from j (S n) = List.app (counts_from j n) [j + Z.of_nat n + 1].
Proof.
  revert j. induction n as [|n IH]; intros j.
  - simpl. f_equal. lia.
  - change (counts_from j (S (S n)))
      with ((j + 1) :: counts_from (j + 1) (S n)).
    rewrite IH. simpl. do 3 f_equal. lia.
Qed.

Lemma counts_from_nth (n : nat) :
  forall (j : Z) (i : nat),
    (i < n)%nat ->
    List.nth_error (counts_from j n) i = Some (j + Z.of_nat i + 1).
Proof.
  induction n as [|n IH]; intros j i Hi; [lia|].
  destruct i as [|i]; simpl.
  - f_equal. lia.
  - rewrite IH by lia. f_equal. lia.
Qed.

(** Up to the cap every request passes. *)
Lemma verdicts_below_cap (o : Limit.rateLimitOptions) (n : nat) :
  forall j,
    j + Z.of_nat n <= Limit.rl_max o ->
    List.map (verdict_at o) (counts_from j n) = List.repeat Limit.Next n.
Proof.
  induction n as [|n IH]; intros j Hj; simpl; [reflexivity|].
  rewrite IH by lia. unfold verdict_at.
  assert (H : (Limit.rl_max o <? j + 1) = false) by (apply Z.ltb_ge; lia).
  rewrite H. reflexivity.
Qed.

(** C6.  For a hard limiter with window length [W] and cap [N], and a
    client with no window open: of the client's [N + 1] requests inside
    one window the first [N] pass and the last is answered by the
    limiter's handler, whatever other clients do in between; and once the
    window has elapsed the count starts over and the next request
    passes. *)
Theorem limiter_cap (o : Limit.rateLimitOptions) (c : string)
    (reqs : list (string * Z)) (cs : gmap string Limit.window)
    (t0 : Z) (ts : list Z) (t' : Z) :
  0 < Limit.rl_max o ->
  idle (Limit.rl_windowMs o) c t0 cs ->
  of_client c reqs = t0 :: ts ->
  Forall (fun t => t <= t0 + Limit.rl_windowMs o) ts ->
  List.length ts = Z.to_nat (Limit.rl_max o) ->
  t0 + Limit.rl_windowMs o < t' ->
  of_client c (fst (limitAll o reqs cs)) =
    List.app (List.repeat Limit.Next (Z.to_nat (Limit.rl_max o)))
             [Limit.Reply (Limit.rl_handler o)]
  /\ fst (Limit.rateLimit o c t' (snd (limitAll o reqs cs))) = Limit.Next.
Proof.
  intros Hmax Hidle Hreqs Hin Hlen Hlater.
  rewrite limitAll_hitAll. cbn [fst snd]. rewrite of_client_map.
  destruct (hitAll_idle _ _ _ _ _ _ Hidle Hreqs Hin) as [Hcounts Hwin].
  rewrite Hcounts, Hlen. split.
  - rewrite counts_from_snoc, List.map_app.
    rewrite verdicts_below_cap by lia. f_equal. simpl. unfold verdict_at.
    assert (H : (Limit.rl_max o <? 0 + Z.of_nat (Z.to_nat (Limit.rl_max o)) + 1)
                = true) by (apply Z.ltb_lt; lia).
    rewrite H. reflexivity.
  - unfold Limit.rateLimit. rewrite hit_idle.
    + simpl. assert (H : (Limit.rl_max o <? 1) = false)
        by (apply Z.ltb_ge; lia).
      rewrite H. reflexivity.
    + unfold idle. rewrite Hwin. simpl. exact Hlater.
Qed.

Lemma limiter_cap_witness :
  let alice := "203.0.113.7" in
  let bob := "198.51.100.23" in
  let reqs := (bob, 500) :: (alice, 1000) :: (bob, 1500)
              :: List.map (fun i => (alice, 1000 + 60000 * Z.of_nat i))
                          (List.seq 1 10) in
  of_client alice (fst (limitAll encLimiter reqs ∅)) =
    List.app (List.repeat Limit.Next 10)
             [Limit.Reply (Limit.rl_handler encLimiter)]
  /\ fst (Limit.rateLimit encLimiter alice (1000 + 30 * 60 * 1000 + 1)
            (snd (limitAll encLimiter reqs ∅))) = Limit.Next.
Proof.
  apply (limiter_cap encLimiter "203.0.113.7" _ ∅ 1000
           (List.map (fun i => 1000 + 60000 * Z.of_nat i) (List.seq 1 10))).
  - reflexivity.
  - exact I.
  - reflexivity.
  - repeat constructor; vm_compute; discriminate.
  - reflexivity.
  - reflexivity.
Defined.

(* ===================================================================== *)
(** * The progressive slowdown                                            *)
(* ===================================================================== *)

(** The delay rule of [speedLimiter], spelled out. *)
Lemma speedLimiter_delay (k : Z) :
  Limit.delayFor speedLimiter k =
    if spdMaxRequests <? k
    then Z.min ((k - spdMaxRequests) * 100) (spdMaxDelayTime * 1000)
    else 0.
Proof. reflexivity. Qed.

Lemma speedLimiter_delay_mono (k k' : Z) :
  k <= k' ->
  Limit.delayFor speedLimiter k <= Limit.delayFor speedLimiter k'.
Proof.
  intros Hk. rewrite !speedLimiter_delay.
  unfold spdMaxRequests, spdMaxDelayTime.
  destruct (Z.ltb_spec 1 k), (Z.ltb_spec 1 k'); lia.
Qed.

(** C7.  For a client with no slowdown window open, the [k]-th request it
    makes inside one window is delayed by
    [min ((k - T) * 100, maxDelay)] milliseconds when [k] exceeds the
    threshold [T = spdMaxRequests], and not at all otherwise, whatever
    other clients do in between; and the delay never decreases as [k]
    grows. *)
Theorem slowdown_delay (c : string) (reqs : list (string * Z))
    (cs : gmap string Limit.window) (t0 : Z) (ts : list Z) (k : nat) :
  idle (Limit.sd_windowMs speedLimiter) c t0 cs ->
  of_client c reqs = t0 :: ts ->
  Forall (fun t => t <= t0 + Limit.sd_windowMs speedLimiter) ts ->
  (1 <= k <= S (List.length ts))%nat ->
  List.nth_error (of_client c (fst (slowAll speedLimiter reqs cs))) (k - 1) =
    Some (if spdMaxRequests <? Z.of_nat k
          then Z.min ((Z.of_nat k - spdMaxRequests) * 100)
                     (spdMaxDelayTime * 1000)
          else 0)
  /\ (forall k1 k2 : Z,
        k1 <= k2 ->
        Limit.delayFor speedLimiter k1 <= Limit.delayFor speedLimiter k2).
Proof.
  intros Hidle Hreqs Hin Hk. split; [|apply speedLimiter_delay_mono].
  rewrite slowAll_hitAll. cbn [fst snd]. rewrite of_client_map.
  destruct (hitAll_idle _ _ _ _ _ _ Hidle Hreqs Hin) as [Hcounts _].
  rewrite Hcounts, List.nth_error_map, counts_from_nth by lia.
  simpl option_map. rewrite speedLimiter_delay.
  replace (0 + Z.of_nat (k - 1) + 1) with (Z.of_nat k) by lia.
  reflexivity.
Qed.

Lemma slowdown_delay_witness :
  let alice := "203.0.113.7" in
  let bob := "198.51.100.23" in
  let reqs := [(alice, 1000); (bob, 1200); (alice, 2000); (alice, 3000);
               (bob, 3100); (alice, 4000)] in
  List.nth_error (of_client alice (fst (slowAll speedLimiter reqs ∅))) 3 =
    Some 300
  /\ (forall k1 k2 : Z,
        k1 <= k2 ->
        Limit.delayFor speedLimiter k1 <= Limit.delayFor speedLimiter k2).
Proof.
  apply (slowdown_delay "203.0.113.7"
           [("203.0.113.7", 1000); ("198.51.100.23", 1200);
            ("203.0.113.7", 2000); ("203.0.113.7", 3000);
            ("198.51.100.23", 3100); ("203.0.113.7", 4000)]
           ∅ 1000 [2000; 3000; 4000] 4).
  - exact I.
  - reflexivity.
  - repeat constructor; vm_compute; discriminate.
  - simpl. lia.
Defined.

(* ===================================================================== *)
(** * Order of the limiters                                               *)
(* ===================================================================== *)

(** C8 (amended).  Of the two hard limiters only the global one is
    evaluated before the slowdown.  A request the global limiter rejects
    is not delayed, is not counted by the other two policies and does not
    reach the table.  A request it passes is delayed by the slowdown, and
    the write limiter is evaluated only after that delay: a write
    request it then rejects has been held back all the same, and does not
    reach the table. *)
Theorem slowdown_sits_between_the_hard_limiters (nanoid : nat -> string)
    (fuel : nat) (rq : request) (now : Z) (st : server) (out : outcome) :
  serve nanoid fuel rq now st = Some out ->
  match fst (Limit.rateLimit reqLimiter (ip rq) now (reqHits st)) with
  | Limit.Reply r =>
      reply out = r /\ delayed out = 0
      /\ spdHits (after out) = spdHits st
      /\ encHits (after out) = encHits st
      /\ db (after out) = db st
  | Limit.Next =>
      delayed out = fst (Limit.slowDown speedLimiter (ip rq) now (spdHits st))
      /\ forall (c : option string) (r : response),
           target rq = PostEncrypt c ->
           fst (Limit.rateLimit encLimiter (ip rq) (now + delayed out)
                  (encHits st)) = Limit.Reply r ->
           reply out = r /\ db (after out) = db st
  end.
Proof.
  unfold serve. intros H.
  destruct (Limit.rateLimit reqLimiter (ip rq) now (reqHits st))
    as [[|r] rh]; cbn [fst].
  - destruct (Limit.slowDown speedLimiter (ip rq) now (spdHits st))
      as [d sh]; cbn [fst].
    destruct (target rq) as [n|c|] eqn:Htarget.
    + destruct (app_get n (db st)) as [r' db']. injection H as <-.
      split; [reflexivity|]. intros c r Hc. discriminate.
    + destruct (Limit.rateLimit encLimiter (ip rq) (now + d) (encHits st))
        as [[|r'] eh] eqn:Henc.
      * destruct (app_post_encrypt nanoid fuel (host rq) c (now + d)
                    (nanoCalls st) (db st)) as [[[r'' k'] db']|];
          [|discriminate].
        injection H as <-. cbn [delayed]. split; [reflexivity|].
        intros c0 r Hc Hr. rewrite Henc in Hr. discriminate.
      * injection H as <-. cbn [delayed reply after db].
        split; [reflexivity|].
        intros c0 r Hc Hr. rewrite Henc in Hr. cbn [fst] in Hr.
        injection Hr as ->. auto.
    + injection H as <-. split; [reflexivity|]. intros c r Hc. discriminate.
  - injection H as <-. cbn. auto.
Qed.

Lemma slowdown_sits_between_the_hard_limiters_witness :
  let alice := "203.0.113.7" in
  let rq := Request alice "notelock.example" (PostEncrypt (Some "abc")) in
  let ten := <[alice := Limit.Window newYear2025 10]> ∅ in
  let eleven := <[alice := Limit.Window newYear2025 11]> ∅ in
  let st := Server [] 10 ten ten ten in
  let out := Outcome (Limit.rl_handler encLimiter) 1000
               (Server [] 10 eleven eleven eleven) in
  serve sampleGenerator 1 rq (newYear2025 + 5000) st = Some out
  /\ delayed out =
       fst (Limit.slowDown speedLimiter alice (newYear2025 + 5000) (spdHits st))
  /\ forall (c : option string) (r : response),
       target rq = PostEncrypt c ->
       fst (Limit.rateLimit encLimiter alice
              (newYear2025 + 5000 + delayed out) (encHits st))
         = Limit.Reply r ->
       reply out = r /\ db (after out) = db st.
Proof.
  intros alice rq ten eleven st out.
  assert (H : serve sampleGenerator 1 rq (newYear2025 + 5000) st = Some out)
    by (vm_compute; reflexivity).
  split; [exact H|].
  exact (slowdown_sits_between_the_hard_limiters sampleGenerator 1 rq
           (newYear2025 + 5000) st out H).
Defined.

(** C8 as stated fails for the write limiter: the eleventh write request
    of one client inside the window is rejected by [encLimiter] after
    having been held back for a second by the slowdown. *)
Lemma write_rejection_pays_the_delay :
  let rq := Request "203.0.113.7" "notelock.example" (PostEncrypt (Some "abc")) in
  exists outs out,
    serveAll sampleGenerator 1 (List.repeat (rq, newYear2025) 11) initial
      = Some outs
    /\ List.nth_error outs 10 = Some out
    /\ reply out = Limit.rl_handler encLimiter
    /\ delayed out = 1000.
Proof.
  eexists. eexists. vm_compute. repeat split.
Qed.

(* ===================================================================== *)
(** * More about the table helpers                                        *)
(* ===================================================================== *)

Lemma find_filter_other (id id' : string) (t : table) :
  id <> id' ->
  List.find (has_uuid id') (List.filter (fun r => negb (has_uuid id r)) t) =
    List.find (has_uuid id') t.
Proof.
  intros Hne. induction t as [|r t IH]; simpl; [reflexivity|].
  destruct (has_uuid id r) eqn:Hr; simpl.
  - apply has_uuid_true in Hr.
    assert (H : has_uuid id' r = false)
      by (apply has_uuid_false; congruence).
    rewrite H. exact IH.
  - destruct (has_uuid id' r); [reflexivity|exact IH].
Qed.

(** X1.  Insert, then look up: the row just inserted under [id] is what
    the lookup returns only if nothing was filed under [id] before; an
    older row under the same id, whatever its note, keeps shadowing the
    new one.  Lookups of other ids are not affected. *)
Theorem insert_then_lookup (id id' : string) (c : option string) (now : Z)
    (t : table) :
  dbFindData id (dbAddData id c now t) =
    match dbFindData id t with
    | JFalse => js_of_note c
    | older => older
    end
  /\ (id' <> id -> dbFindData id' (dbAddData id c now t) = dbFindData id' t).
Proof.
  split.
  - destruct (dbFindData id t) eqn:H.
    + rewrite dbFindData_add_fresh by exact H. reflexivity.
    + rewrite dbFindData_add_shadowed; congruence.
    + rewrite dbFindData_add_shadowed; congruence.
  - intros Hne. apply dbFindData_add_other. congruence.
Qed.

Lemma insert_then_lookup_witness :
  dbFindData "b" (dbAddData "a" (Some "x") 0 [Row "b" None ""])
    = dbFindData "b" [Row "b" None ""].
Proof.
  apply (insert_then_lookup "a" "b" (Some "x") 0 [Row "b" None ""]).
  discriminate.
Defined.

Lemma filter_split_length {A : Type} (p : A -> bool) (l : list A) :
  (List.length (List.filter p l)
   + List.length (List.filter (fun x => negb (p x)) l))%nat = List.length l.
Proof.
  induction l as [|x l IH]; simpl; [reflexivity|].
  destruct (p x); simpl; lia.
Qed.

(** X2.  [dbDeleteValue(id)] removes every row filed under [id], however
    many there are, and nothing else: afterwards the id resolves to
    nothing, every other id resolves as before, and the table is shorter
    by exactly the number of rows that carried the id. *)
Theorem delete_removes_all_and_only (id id' : string) (t : table) :
  dbFindData id (dbDeleteValue id t) = JFalse
  /\ (id' <> id -> dbFindData id' (dbDeleteValue id t) = dbFindData id' t)
  /\ (List.length (dbDeleteValue id t) + List.length (rows_of id t))%nat
     = List.length t.
Proof.
  split; [apply dbFindData_delete|]. split.
  - intros Hne. unfold dbFindData, dbDeleteValue.
    rewrite find_filter_other by congruence. reflexivity.
  - unfold dbDeleteValue, rows_of. rewrite Nat.add_comm.
    apply filter_split_length.
Qed.

Lemma delete_removes_all_and_only_witness :
  let t := [Row "a" None ""; Row "b" (Some "y") ""; Row "a" (Some "x") ""] in
  dbFindData "b" (dbDeleteValue "a" t) = dbFindData "b" t.
Proof.
  apply (delete_removes_all_and_only "a" "b"
           [Row "a" None ""; Row "b" (Some "y") ""; Row "a" (Some "x") ""]).
  discriminate.
Defined.

(** X3.  A retrieval concerns the addressed id alone: whatever the query
    and whatever it finds, every id other than the query's first 21
    characters resolves afterwards as it did before. *)
Theorem retrieval_leaves_other_ids (n : option string) (id' : string)
    (t : table) :
  (forall s, n = Some s -> noteIdOf s <> id') ->
  dbFindData id' (snd (app_get n t)) = dbFindData id' t.
Proof.
  intros Hother. unfold app_get. destruct n as [s|]; [|reflexivity].
  destruct (negb (s =? "")%string); [|reflexivity].
  destruct (truthy _); [|reflexivity]. simpl.
  unfold dbFindData, dbDeleteValue.
  rewrite find_filter_other by (apply Hother; reflexivity). reflexivity.
Qed.

Lemma retrieval_leaves_other_ids_witness :
  let t := [Row sampleId (Some "abc") ""; Row (sampleGenerator 3) (Some "def") ""] in
  dbFindData (sampleGenerator 3) (snd (app_get (Some sampleId) t))
    = dbFindData (sampleGenerator 3) t.
Proof.
  apply (retrieval_leaves_other_ids (Some sampleId) (sampleGenerator 3)).
  intros s Hs. injection Hs as <-. discriminate.
Defined.

(** X4.  What a completed submission does to the table: the id it hands
    out is one of the generator's candidates under which nothing was
    retrievable, the generator has been called at least once more, the
    table has grown by exactly one row, and every other id resolves as it
    did before. *)
Theorem submission_effect (nanoid : nat -> string) (fuel : nat)
    (c : option string) (now : Z) (k : nat) (t : table)
    (id : string) (k' : nat) (t' : table) :
  encrypt_loop nanoid fuel c now k t = Some (id, k', t') ->
  truthy (dbFindData id t) = false
  /\ (exists j, (k <= j < k')%nat /\ id = nanoid j)
  /\ (k' <= k + fuel)%nat
  /\ List.length t' = S (List.length t)
  /\ forall id', id' <> id -> dbFindData id' t' = dbFindData id' t.
Proof.
  intros H. apply encrypt_loop_inv in H as (n & Hn & [_ Hfree] & -> & -> & ->).
  split; [exact Hfree|]. split; [exists (k + n)%nat; split; [lia|reflexivity]|].
  split; [lia|]. split.
  - unfold dbAddData. rewrite List.length_app. simpl. lia.
  - intros id' Hne. apply dbFindData_add_other. congruence.
Qed.

Lemma submission_effect_witness :
  let t := [Row (sampleGenerator 0) (Some "abc") ""] in
  exists t',
    encrypt_loop sampleGenerator 4 (Some "def") newYear2025 0 t
      = Some (sampleGenerator 1, 2%nat, t')
    /\ List.length t' = 2%nat
    /\ dbFindData (sampleGenerator 0) t' = JString "abc".
Proof.
  eexists. split; [reflexivity|].
  destruct (submission_effect sampleGenerator 4 (Some "def") newYear2025 0
              [Row (sampleGenerator 0) (Some "abc") ""]
              (sampleGenerator 1) 2 _ eq_refl)
    as (_ & _ & _ & Hlen & Hother).
  split; [exact Hlen|]. apply Hother. discriminate.
Defined.

(* ===================================================================== *)
(** * Unique ids without a uniqueness constraint                          *)
(* ===================================================================== *)

Lemma find_none_not_in (id : string) (t : table) :
  List.find (has_uuid id) t = None <-> ~ In id (List.map uuid t).
Proof.
  induction t as [|r t IH]; simpl.
  - split; auto.
  - destruct (has_uuid id r) eqn:Hr.
    + apply has_uuid_true in Hr. split; [discriminate|]. intros H.
      exfalso. apply H. left. exact Hr.
    + apply has_uuid_false in Hr. rewrite IH. split.
      * intros H [Heq|Hin]; auto.
      * intros H Hin. apply H. right. exact Hin.
Qed.

(** In a tidy table an id resolves to something falsy only when no row
    carries it. *)
Lemma tidy_falsy_absent (id : string) (t : table) :
  tidy t -> truthy (dbFindData id t) = false -> dbFindData id t = JFalse.
Proof.
  intros [_ Hfull] Hfalsy. unfold dbFindData in *.
  destruct (List.find (has_uuid id) t) as [r|] eqn:Hfind; [|reflexivity].
  exfalso. apply List.find_some in Hfind as [Hin _].
  rewrite List.Forall_forall in Hfull. apply (Hfull r Hin).
  unfold blank. destruct (note r) as [s|]; [|left; reflexivity].
  right. simpl in Hfalsy. apply negb_false_iff, String.eqb_eq in Hfalsy.
  congruence.
Qed.

Lemma tidy_filter (p : row -> bool) (t : table) :
  tidy t -> tidy (List.filter p t).
Proof.
  intros [Hnodup Hfull]. split.
  - clear Hfull. induction t as [|r t IH]; simpl; [constructor|].
    inversion Hnodup as [|? ? Hnotin Hrest]; subst.
    destruct (p r); simpl; [|auto].
    constructor; [|auto].
    intros Hin. apply Hnotin. apply List.in_map_iff in Hin as (r' & Heq & Hin).
    apply List.filter_In in Hin as [Hin _].
    apply List.in_map_iff. exists r'. auto.
  - rewrite List.Forall_forall in *. intros r Hin.
    apply List.filter_In in Hin as [Hin _]. auto.
Qed.

Lemma tidy_add (id : string) (c : option string) (now : Z) (t : table) :
  tidy t -> ~ blank c -> dbFindData id t = JFalse ->
  tidy (dbAddData id c now t).
Proof.
  intros [Hnodup Hfull] Hc Hfresh. unfold dbAddData. split.
  - rewrite List.map_app. simpl.
    apply dbFindData_false, find_none_not_in in Hfresh.
    apply List.NoDup_app; [exact Hnodup|repeat constructor; simpl; tauto|].
    intros x Hx [<-|[]]. contradiction.
  - apply List.Forall_app. split; [exact Hfull|]. repeat constructor. exact Hc.
Qed.

(** X5.  The collision loop keeps ids unique although the table has no
    uniqueness constraint, as long as no blank blob is ever submitted:
    starting from a table in which no two rows share an id and no note is
    blank, every request served that is not a write of a blank blob leaves
    such a table, and so does every sweep. *)
Theorem ids_stay_unique (nanoid : nat -> string) (fuel : nat) (rq : request)
    (now : Z) (st : server) (out : outcome) :
  tidy (db st) ->
  (forall c, target rq = PostEncrypt c -> ~ blank c) ->
  serve nanoid fuel rq now st = Some out ->
  tidy (db (after out))
  /\ forall tick, tidy (dbExpireValue tick (db (after out))).
Proof.
  intros Htidy Hwrite Hserve.
  assert (H : tidy (db (after out))).
  { unfold serve in Hserve.
    destruct (Limit.rateLimit reqLimiter (ip rq) now (reqHits st))
      as [[|r] rh]; [|injection Hserve as <-; exact Htidy].
    destruct (Limit.slowDown speedLimiter (ip rq) now (spdHits st)) as [d sh].
    destruct (target rq) as [n|c|].
    - destruct (app_get n (db st)) as [r' db'] eqn:Hget.
      injection Hserve as <-. simpl.
      replace db' with (snd (app_get n (db st))) by (rewrite Hget; reflexivity).
      unfold app_get. destruct n as [s|]; [|exact Htidy].
      destruct (negb (s =? "")%string); [|exact Htidy].
      destruct (truthy _); [|exact Htidy].
      apply tidy_filter, Htidy.
    - destruct (Limit.rateLimit encLimiter (ip rq) (now + d) (encHits st))
        as [[|r'] eh]; [|injection Hserve as <-; exact Htidy].
      unfold app_post_encrypt in Hserve.
      destruct (encrypt_loop nanoid fuel c (now + d) (nanoCalls st) (db st))
        as [[[id k'] db']|] eqn:Hloop; [|discriminate].
      injection Hserve as <-. simpl.
      apply encrypt_loop_inv in Hloop as (n & _ & [_ Hfree] & Hid & _ & ->).
      apply tidy_add; [exact Htidy|apply Hwrite; reflexivity|].
      apply tidy_falsy_absent; [exact Htidy|]. rewrite Hid. exact Hfree.
    - injection Hserve as <-. exact Htidy. }
  split; [exact H|]. intros tick. apply tidy_filter, H.
Qed.

Lemma ids_stay_unique_witness :
  let rq := Request "203.0.113.7" "notelock.example" (PostEncrypt (Some "abc")) in
  exists out,
    serve sampleGenerator 1 rq newYear2025 initial = Some out
    /\ tidy (db (after out))
    /\ forall tick, tidy (dbExpireValue tick (db (after out))).
Proof.
  eexists. split; [reflexivity|].
  apply (ids_stay_unique sampleGenerator 1
           (Request "203.0.113.7" "notelock.example" (PostEncrypt (Some "abc")))
           newYear2025 initial).
  - split; constructor.
  - intros c Hc. injection Hc as <-. intros [H|H]; discriminate.
  - reflexivity.
Defined.

Lemma tidy_find (r : row) (t : table) :
  List.NoDup (List.map uuid t) -> In r t ->
  List.find (has_uuid (uuid r)) t = Some r.
Proof.
  induction t as [|r' t IH]; simpl; intros Hnodup Hin; [contradiction|].
  inversion Hnodup as [|? ? Hnotin Hrest]; subst.
  destruct Hin as [->|Hin].
  - unfold has_uuid. rewrite String.eqb_refl. reflexivity.
  - destruct (has_uuid (uuid r) r') eqn:Hr'; [|auto].
    apply has_uuid_true in Hr'. exfalso. apply Hnotin. rewrite Hr'.
    apply List.in_map, Hin.
Qed.

Lemma tidy_delete_length (r : row) (t : table) :
  List.NoDup (List.map uuid t) -> In r t ->
  S (List.length (dbDeleteValue (uuid r) t)) = List.length t.
Proof.
  unfold dbDeleteValue.
  induction t as [|r' t IH]; simpl; intros Hnodup Hin; [contradiction|].
  inversion Hnodup as [|? ? Hnotin Hrest]; subst.
  destruct (has_uuid (uuid r) r') eqn:Hr'; simpl.
  - f_equal. apply has_uuid_true in Hr'.
    rewrite Hr' in Hnotin.
    apply find_none_not_in in Hnotin.
    clear -Hnotin. induction t as [|x t IH]; simpl in *; [reflexivity|].
    destruct (has_uuid (uuid r) x); [discriminate|]. simpl. f_equal. auto.
  - destruct Hin as [->|Hin].
    + unfold has_uuid in Hr'. rewrite String.eqb_refl in Hr'. discriminate.
    + f_equal. auto.
Qed.

(** X6.  In a table with unique ids and no blank notes every stored note
    can be fetched: a query that starts with the row's id (a non-empty id
    of at most 21 characters) is answered with that row's note, and the
    retrieval removes that row and no other. *)
Theorem every_stored_note_is_retrievable (t : table) (r : row) (n : string) :
  tidy t -> In r t ->
  uuid r <> "" -> noteIdOf n = uuid r ->
  exists s,
    note r = Some s /\ s <> ""
    /\ app_get (Some n) t = (notePage (JString s), dbDeleteValue (uuid r) t)
    /\ S (List.length (dbDeleteValue (uuid r) t)) = List.length t
    /\ forall r', In r' t -> r' <> r -> In r' (dbDeleteValue (uuid r) t).
Proof.
  intros [Hnodup Hfull] Hin Hid Hcut.
  rewrite List.Forall_forall in Hfull. specialize (Hfull r Hin).
  destruct (note r) as [s|] eqn:Hnote; [|exfalso; apply Hfull; left; reflexivity].
  assert (Hs : s <> "") by (intros ->; apply Hfull; right; reflexivity).
  exists s. split; [reflexivity|]. split; [exact Hs|].
  pose proof (tidy_find r t Hnodup Hin) as Hfind.
  assert (Hfound : dbFindData (uuid r) t = JString s).
  { unfold dbFindData. rewrite Hfind, Hnote. reflexivity. }
  assert (Hn : n <> "") by (intros ->; apply Hid; rewrite <- Hcut; reflexivity).
  split; [|split].
  - rewrite app_get_found; rewrite ?Hcut, ?Hfound; auto using truthy_JString.
  - apply tidy_delete_length; assumption.
  - intros r' Hin' Hne. unfold dbDeleteValue. apply List.filter_In.
    split; [exact Hin'|]. apply negb_true_iff, has_uuid_false.
    intros Heq. apply Hne.
    pose proof (tidy_find r' t Hnodup Hin') as Hfind'.
    rewrite Heq, Hfind in Hfind'. congruence.
Qed.

Lemma every_stored_note_is_retrievable_witness :
  let t := [Row (sampleGenerator 0) (Some "abc") "";
            Row sampleId (Some "def") ""] in
  exists s,
    Some "def" = Some s /\ s <> ""
    /\ app_get (Some (sampleId ++ "#key")%string) t
       = (notePage (JString s), dbDeleteValue sampleId t)
    /\ S (List.length (dbDeleteValue sampleId t)) = List.length t
    /\ forall r', In r' t -> r' <> Row sampleId (Some "def") "" ->
                  In r' (dbDeleteValue sampleId t).
Proof.
  apply (every_stored_note_is_retrievable
           [Row (sampleGenerator 0) (Some "abc") ""; Row sampleId (Some "def") ""]
           (Row sampleId (Some "def") "") (sampleId ++ "#key")%string).
  - split.
    + repeat constructor; simpl; intuition discriminate.
    + repeat constructor; intros [H|H]; discriminate.
  - right. left. reflexivity.
  - discriminate.
  - reflexivity.
Defined.

(* ===================================================================== *)
(** * The calendar                                                        *)
(* ===================================================================== *)

(** One walk over a whole 400-year cycle, from 0000-03-01 on. *)
Lemma era_checked : eraLoop (Z.to_nat 146098) (-719468) 0 = true.
Proof. vm_compute. reflexivity. Qed.

Lemma eraLoop_step (n : nat) (z prev : Z) :
  eraLoop (S n) z prev = true ->
  prev < dateKey z /\ inMonth z = true /\ eraLoop n (z + 1) (dateKey z) = true.
Proof.
  unfold dateKey, inMonth. cbn [eraLoop].
  destruct (Clock.civil_from_days z) as [[y m] d].
  rewrite !andb_true_iff, Z.ltb_lt. tauto.
Qed.

Lemma eraLoop_spec (n : nat) :
  forall z prev,
    eraLoop n z prev = true ->
    forall i, 0 <= i -> i + 1 < Z.of_nat n ->
      dateKey (z + i) < dateKey (z + i + 1) /\ inMonth (z + i) = true.
Proof.
  induction n as [|n IH]; intros z prev H i Hi Hn; [lia|].
  apply eraLoop_step in H as (_ & Hm & H).
  destruct (Z.eq_dec i 0) as [->|Hne].
  - rewrite Z.add_0_r. split; [|exact Hm].
    destruct n as [|n]; [lia|]. apply eraLoop_step in H. tauto.
  - specialize (IH _ _ H (i - 1)).
    replace (z + 1 + (i - 1)) with (z + i) in IH by ring.
    apply IH; lia.
Qed.

Lemma civil_from_days_era (z e : Z) :
  Clock.civil_from_days (z + 146097 * e) =
    let '(y, m, d) := Clock.civil_from_days z in (y + 400 * e, m, d).
Proof.
  unfold Clock.civil_from_days. cbv zeta.
  replace (z + 146097 * e + 719468) with (z + 719468 + e * 146097) by ring.
  rewrite Z.div_add by lia.
  replace (z + 719468 + e * 146097 - ((z + 719468) / 146097 + e) * 146097)
    with (z + 719468 - (z + 719468) / 146097 * 146097) by ring.
  set (doe := z + 719468 - (z + 719468) / 146097 * 146097).
  set (yoe := (doe - doe / 1460 + doe / 36524 - doe / 146096) / 365).
  set (doy := doe - (365 * yoe + yoe / 4 - yoe / 100)).
  set (mp := (5 * doy + 2) / 153).
  destruct (mp <? 10); destruct (_ <=? 2); f_equal; f_equal; ring.
Qed.

Lemma dateKey_era (z e : Z) : dateKey (z + 146097 * e) = dateKey z + 4000000 * e.
Proof.
  unfold dateKey. rewrite civil_from_days_era.
  destruct (Clock.civil_from_days z) as [[y m] d]. ring.
Qed.

Lemma inMonth_era (z e : Z) : inMonth (z + 146097 * e) = inMonth z.
Proof.
  unfold inMonth. rewrite civil_from_days_era.
  destruct (Clock.civil_from_days z) as [[y m] d]. reflexivity.
Qed.

(** Every day is followed by a later date, and months and days of the
    month stay in range. *)
Lemma dateKey_next (z : Z) : dateKey z < dateKey (z + 1) /\ inMonth z = true.
Proof.
  pose proof (Z.div_mod (z + 719468) 146097 ltac:(lia)) as Hz.
  pose proof (Z.mod_pos_bound (z + 719468) 146097 ltac:(lia)) as Hr.
  set (e := (z + 719468) / 146097) in *.
  set (r := (z + 719468) mod 146097) in *.
  destruct (eraLoop_spec _ _ _ era_checked r) as [Hstep Hin]; [lia|lia|].
  replace z with (-719468 + r + 146097 * e) by lia.
  replace (-719468 + r + 146097 * e + 1)
    with (-719468 + r + 1 + 146097 * e) by ring.
  rewrite !dateKey_era, inMonth_era. split; [lia|exact Hin].
Qed.

Lemma dateKey_mono (z1 z2 : Z) : z1 < z2 -> dateKey z1 < dateKey z2.
Proof.
  intros H. replace z2 with (z1 + 1 + Z.of_nat (Z.to_nat (z2 - z1 - 1))) by lia.
  generalize (Z.to_nat (z2 - z1 - 1)) as n. clear H z2.
  induction n as [|n IH].
  - rewrite Z.add_0_r. apply dateKey_next.
  - eapply Z.lt_trans; [exact IH|].
    replace (z1 + 1 + Z.of_nat (S n)) with (z1 + 1 + Z.of_nat n + 1) by lia.
    apply dateKey_next.
Qed.

Lemma dateKey_compare (z1 z2 : Z) : (dateKey z1 ?= dateKey z2) = (z1 ?= z2).
Proof.
  destruct (Z.compare_spec z1 z2) as [->|H|H].
  - apply Z.compare_refl.
  - apply Z.compare_lt_iff, dateKey_mono, H.
  - apply Z.compare_gt_iff, dateKey_mono, H.
Qed.


Lemma digit_compare (x y : Z) :
  Ascii.compare (Clock.digit x) (Clock.digit y) = (x mod 10 ?= y mod 10).
Proof.
  unfold Clock.digit.
  pose proof (Z.mod_pos_bound x 10 ltac:(lia)) as Hx.
  pose proof (Z.mod_pos_bound y 10 ltac:(lia)) as Hy.
  generalize dependent (x mod 10). generalize dependent (y mod 10).
  intros b Hb a Ha.
  assert (Ea : a = 0 \/ a = 1 \/ a = 2 \/ a = 3 \/ a = 4 \/ a = 5 \/ a = 6
               \/ a = 7 \/ a = 8 \/ a = 9) by lia.
  assert (Eb : b = 0 \/ b = 1 \/ b = 2 \/ b = 3 \/ b = 4 \/ b = 5 \/ b = 6
               \/ b = 7 \/ b = 8 \/ b = 9) by lia.
  clear Ha Hb.
  repeat (destruct Ea as [->|Ea]); try subst a;
    repeat (destruct Eb as [->|Eb]); try subst b; reflexivity.
Qed.

Lemma compare_app (p q r r' : string) :
  String.length p = String.length q ->
  String.compare (p ++ r) (q ++ r') =
    match String.compare p q with
    | Eq => String.compare r r'
    | ne => ne
    end.
Proof.
  revert q. induction p as [|a p IH]; intros [|b q] Hlen;
    simpl in Hlen; try discriminate.
  - reflexivity.
  - simpl. destruct (Ascii.compare a b); try reflexivity.
    apply IH. lia.
Qed.

Lemma lex_digit (B a b : Z) :
  0 < B ->
  (a ?= b) = match a / B ?= b / B with
             | Eq => a mod B ?= b mod B
             | ne => ne
             end.
Proof.
  intros HB.
  pose proof (Z.div_mod a B ltac:(lia)) as Ha.
  pose proof (Z.div_mod b B ltac:(lia)) as Hb.
  pose proof (Z.mod_pos_bound a B HB) as Ra.
  pose proof (Z.mod_pos_bound b B HB) as Rb.
  destruct (Z.compare_spec (a / B) (b / B)) as [E|L|G].
  - rewrite Ha at 1. rewrite Hb at 1. rewrite E.
    apply Z.add_compare_mono_l.
  - apply Z.compare_lt_iff. nia.
  - apply Z.compare_gt_iff. nia.
Qed.

Lemma pad2_compare_mod (a b : Z) :
  String.compare (Clock.pad2 a) (Clock.pad2 b) = (a mod 100 ?= b mod 100).
Proof.
  unfold Clock.pad2. cbn [String.compare]. rewrite !digit_compare.
  rewrite (lex_digit 10 (a mod 100) (b mod 100)) by lia.
  replace (a mod 100 / 10) with (a / 10 mod 10)
    by (Z.div_mod_to_equations; lia).
  replace (b mod 100 / 10) with (b / 10 mod 10)
    by (Z.div_mod_to_equations; lia).
  replace (a mod 100 mod 10) with (a mod 10) by (Z.div_mod_to_equations; lia).
  replace (b mod 100 mod 10) with (b mod 10) by (Z.div_mod_to_equations; lia).
  destruct (a / 10 mod 10 ?= b / 10 mod 10); try reflexivity.
  destruct (a mod 10 ?= b mod 10); reflexivity.
Qed.

Lemma pad3_compare_mod (a b : Z) :
  String.compare (Clock.pad3 a) (Clock.pad3 b) = (a mod 1000 ?= b mod 1000).
Proof.
  unfold Clock.pad3. cbn [String.compare].
  rewrite digit_compare, pad2_compare_mod.
  rewrite (lex_digit 100 (a mod 1000) (b mod 1000)) by lia.
  replace (a mod 1000 / 100) with (a / 100 mod 10)
    by (Z.div_mod_to_equations; lia).
  replace (b mod 1000 / 100) with (b / 100 mod 10)
    by (Z.div_mod_to_equations; lia).
  replace (a mod 1000 mod 100) with (a mod 100)
    by (Z.div_mod_to_equations; lia).
  replace (b mod 1000 mod 100) with (b mod 100)
    by (Z.div_mod_to_equations; lia).
  reflexivity.
Qed.

Lemma pad4_compare (a b : Z) :
  0 <= a < 10000 -> 0 <= b < 10000 ->
  String.compare (Clock.pad4 a) (Clock.pad4 b) = (a ?= b).
Proof.
  intros Ha Hb. unfold Clock.pad4. cbn [String.compare].
  rewrite digit_compare, pad3_compare_mod.
  rewrite (lex_digit 1000 a b) by lia.
  replace (a / 1000 mod 10) with (a / 1000) by (Z.div_mod_to_equations; lia).
  replace (b / 1000 mod 10) with (b / 1000) by (Z.div_mod_to_equations; lia).
  reflexivity.
Qed.

Lemma pad2_compare (a b : Z) :
  0 <= a < 100 -> 0 <= b < 100 ->
  String.compare (Clock.pad2 a) (Clock.pad2 b) = (a ?= b).
Proof.
  intros Ha Hb. rewrite pad2_compare_mod, !Z.mod_small by lia. reflexivity.
Qed.

Lemma date10_compare (t0 t1 : Z) :
  0 <= t0 < endOfYears -> 0 <= t1 < endOfYears ->
  String.compare (Clock.date10 t0) (Clock.date10 t1) =
    (t0 / Clock.msPerDay ?= t1 / Clock.msPerDay).
Proof.
  intros H0 H1. rewrite <- dateKey_compare.
  assert (Hday : forall t, 0 <= t < endOfYears ->
                           0 <= t / Clock.msPerDay <= 2932896).
  { intros t Ht. unfold endOfYears, Clock.msPerDay in *.
    Z.div_mod_to_equations. lia. }
  assert (Hkey : forall z, 0 <= z <= 2932896 ->
                           19700101 <= dateKey z <= 99991231).
  { intros z Hz. split.
    - destruct (Z.eq_dec z 0) as [->|Hne]; [vm_compute; discriminate|].
      apply Z.lt_le_incl.
      change 19700101 with (dateKey 0). apply dateKey_mono. lia.
    - destruct (Z.eq_dec z 2932896) as [->|Hne]; [vm_compute; discriminate|].
      apply Z.lt_le_incl.
      change 99991231 with (dateKey 2932896). apply dateKey_mono. lia. }
  specialize (Hkey _ (Hday _ H0)) as K0. specialize (Hkey _ (Hday _ H1)) as K1.
  destruct (dateKey_next (t0 / Clock.msPerDay)) as [_ M0].
  destruct (dateKey_next (t1 / Clock.msPerDay)) as [_ M1].
  unfold Clock.date10, dateKey, inMonth in *.
  destruct (Clock.civil_from_days (t0 / Clock.msPerDay)) as [[y0 m0] d0].
  destruct (Clock.civil_from_days (t1 / Clock.msPerDay)) as [[y1 m1] d1].
  rewrite !andb_true_iff, !Z.leb_le in M0, M1.
  rewrite compare_app by reflexivity.
  rewrite pad4_compare by lia.
  change ("-" ++ ?s)%string with (String "-" s). cbn [String.compare].
  change (Ascii.compare "-" "-") with Eq. cbv iota.
  rewrite compare_app by reflexivity.
  rewrite pad2_compare by lia.
  change ("-" ++ ?s)%string with (String "-" s). cbn [String.compare].
  change (Ascii.compare "-" "-") with Eq. cbv iota.
  rewrite pad2_compare by lia.
  destruct (Z.compare_spec y0 y1) as [->|Hy|Hy].
  - destruct (Z.compare_spec m0 m1) as [->|Hm|Hm].
    + symmetry. apply Z.add_compare_mono_l.
    + symmetry. apply Z.compare_lt_iff. lia.
    + symmetry. apply Z.compare_gt_iff. lia.
  - symmetry. apply Z.compare_lt_iff. lia.
  - symmetry. apply Z.compare_gt_iff. lia.
Qed.

(* ===================================================================== *)
(** * More about the sweep                                                *)
(* ===================================================================== *)

Lemma date10_ltb (t0 t1 : Z) :
  0 <= t0 < endOfYears -> 0 <= t1 < endOfYears ->
  String.ltb (Clock.date10 t0) (Clock.date10 t1) =
    (t0 / Clock.msPerDay <? t1 / Clock.msPerDay).
Proof.
  intros H0 H1. unfold String.ltb, Z.ltb.
  rewrite date10_compare by assumption. reflexivity.
Qed.

Lemma expired_by_day (id : string) (c : option string)
    (t0 now : Z) :
  0 <= t0 < endOfYears ->
  0 <= now - noteLife * Clock.msPerHour < endOfYears ->
  expired now (Row id c (getTimeStamp t0)) =
    (t0 / Clock.msPerDay <? (now - noteLife * Clock.msPerHour) / Clock.msPerDay).
Proof.
  intros H0 H1. rewrite expired_by_date.
  replace (now + - noteLife * Clock.msPerHour)
    with (now - noteLife * Clock.msPerHour) by ring.
  apply date10_ltb; assumption.
Qed.

(** X7.  What the sweep's text comparison amounts to, for clocks between
    1970 and the year 9999: a row is deleted exactly when it was inserted
    on an earlier UTC calendar day than the day on which the instant
    [noteLife] hours before the sweep falls. *)
Theorem sweep_compares_calendar_days (id : string) (c : option string)
    (t0 now : Z) :
  0 <= t0 < endOfYears ->
  0 <= now - noteLife * Clock.msPerHour < endOfYears ->
  expired now (Row id c (getTimeStamp t0)) =
    (t0 / Clock.msPerDay <? (now - noteLife * Clock.msPerHour) / Clock.msPerDay).
Proof. apply expired_by_day. Qed.

Lemma sweep_compares_calendar_days_witness :
  expired (newYear2025 + 25 * Clock.msPerHour)
          (Row sampleId (Some "abc") (getTimeStamp newYear2025))
  = (newYear2025 / Clock.msPerDay
     <? (newYear2025 + 25 * Clock.msPerHour - noteLife * Clock.msPerHour)
        / Clock.msPerDay).
Proof.
  apply (sweep_compares_calendar_days sampleId (Some "abc") newYear2025
           (newYear2025 + 25 * Clock.msPerHour)).
  - vm_compute. split; [discriminate|reflexivity].
  - vm_compute. split; [discriminate|reflexivity].
Defined.

(** X8.  How long a note lives, for clocks between 1970 and the year 9999:
    no sweep deletes a note that is not yet older than [noteLife] hours,
    and every sweep deletes a note that is at least [noteLife] hours and
    one day old. *)
Theorem note_lifetime_bounds (id : string) (c : option string) (t0 now : Z) :
  0 <= t0 < endOfYears ->
  0 <= now - noteLife * Clock.msPerHour < endOfYears ->
  (expired now (Row id c (getTimeStamp t0)) = true ->
   noteLife * Clock.msPerHour < now - t0)
  /\ (noteLife * Clock.msPerHour + Clock.msPerDay <= now - t0 ->
      expired now (Row id c (getTimeStamp t0)) = true).
Proof.
  intros H0 H1.
  rewrite (expired_by_day id c t0 now H0 H1).
  unfold noteLife, Clock.msPerHour, Clock.msPerDay in *.
  split; intros H.
  - apply Z.ltb_lt in H. Z.div_mod_to_equations. lia.
  - apply Z.ltb_lt. Z.div_mod_to_equations. lia.
Qed.

Lemma note_lifetime_bounds_witness :
  let young := newYear2025 + 24 * Clock.msPerHour in
  let old := newYear2025 + 48 * Clock.msPerHour in
  (expired young (Row sampleId (Some "abc") (getTimeStamp newYear2025)) = true ->
   noteLife * Clock.msPerHour < young - newYear2025)
  /\ expired old (Row sampleId (Some "abc") (getTimeStamp newYear2025)) = true.
Proof.
  destruct (note_lifetime_bounds sampleId (Some "abc") newYear2025
              (newYear2025 + 24 * Clock.msPerHour)) as [Hyoung _];
    [vm_compute; split; [discriminate|reflexivity]
    |vm_compute; split; [discriminate|reflexivity]|].
  destruct (note_lifetime_bounds sampleId (Some "abc") newYear2025
              (newYear2025 + 48 * Clock.msPerHour)) as [_ Hold];
    [vm_compute; split; [discriminate|reflexivity]
    |vm_compute; split; [discriminate|reflexivity]|].
  split; [exact Hyoung|]. apply Hold. vm_compute. discriminate.
Defined.

Lemma filter_filter_implied {A : Type} (p q : A -> bool) (l : list A) :
  (forall x, In x l -> q x = true -> p x = true) ->
  List.filter q (List.filter p l) = List.filter q l.
Proof.
  induction l as [|x l IH]; intros H; simpl; [reflexivity|].
  destruct (p x) eqn:Hp; simpl.
  - rewrite IH by (intros y Hy; apply H; right; exact Hy). reflexivity.
  - destruct (q x) eqn:Hq.
    + rewrite (H x (or_introl eq_refl) Hq) in Hp. discriminate.
    + apply IH. intros y Hy. apply H. right. exact Hy.
Qed.

Lemma stamped_filter (p : row -> bool) (t : table) :
  stamped t -> stamped (List.filter p t).
Proof.
  unfold stamped. rewrite !List.Forall_forall. intros H r Hin.
  apply List.filter_In in Hin as [Hin _]. auto.
Qed.

(** What is expired stays expired. *)
Lemma expired_later (r : row) (now now' : Z) :
  (exists t0, 0 <= t0 < endOfYears /\ created r = getTimeStamp t0) ->
  now <= now' ->
  0 <= now - noteLife * Clock.msPerHour ->
  now' - noteLife * Clock.msPerHour < endOfYears ->
  expired now r = true -> expired now' r = true.
Proof.
  intros (t0 & Ht0 & Hstamp) Hle Hlo Hhi.
  destruct r as [id c ts]. simpl in Hstamp. subst ts.
  rewrite !expired_by_day by lia.
  rewrite !Z.ltb_lt. intros H. eapply Z.lt_le_trans; [exact H|].
  apply Z.div_le_mono; [reflexivity|lia].
Qed.

Lemma expire_twice (t : table) (now now' : Z) :
  stamped t -> now <= now' ->
  0 <= now - noteLife * Clock.msPerHour ->
  now' - noteLife * Clock.msPerHour < endOfYears ->
  dbExpireValue now' (dbExpireValue now t) = dbExpireValue now' t.
Proof.
  intros Hst Hle Hlo Hhi. unfold dbExpireValue.
  apply filter_filter_implied. intros r Hin Hkeep.
  unfold stamped in Hst. rewrite List.Forall_forall in Hst.
  destruct (expired now r) eqn:He; [|reflexivity].
  rewrite (expired_later r now now' (Hst r Hin) Hle Hlo Hhi He) in Hkeep.
  discriminate.
Qed.

(** X9.  The recurring sweep adds up: for clocks between 1970 and the
    year 9999 and a table of rows stamped by [getTimeStamp], a later sweep
    leaves what it would have left without the earlier one, so after any
    number of ticks with no request in between the table is what a single
    sweep at the last tick leaves. *)
Theorem sweeps_add_up (t : table) (n : nat) (start : Z) :
  stamped t -> (0 < n)%nat ->
  0 <= start + expireInterval - noteLife * Clock.msPerHour ->
  start + Z.of_nat n * expireInterval - noteLife * Clock.msPerHour
    < endOfYears ->
  sweepTicks n start t =
    dbExpireValue (start + Z.of_nat n * expireInterval) t.
Proof.
  revert t start. induction n as [|n IH]; intros t start Hst Hn Hlo Hhi; [lia|].
  cbn [sweepTicks]. change (sweepTick ?x ?y) with (dbExpireValue x y).
  destruct n as [|n].
  - cbn [sweepTicks]. f_equal; lia.
  - assert (Hi : 0 < expireInterval) by reflexivity.
    rewrite IH; try lia; [|apply stamped_filter, Hst].
    replace (start + expireInterval + Z.of_nat (S n) * expireInterval)
      with (start + Z.of_nat (S (S n)) * expireInterval) by lia.
    apply expire_twice; try assumption. nia.
Qed.

Lemma sweeps_add_up_witness :
  let t := [Row sampleId (Some "abc") (getTimeStamp newYear2025);
            Row (sampleGenerator 1) (Some "def")
                (getTimeStamp (newYear2025 + 23 * Clock.msPerHour))] in
  sweepTicks 12 (newYear2025 + 47 * Clock.msPerHour) t =
    dbExpireValue (newYear2025 + 47 * Clock.msPerHour + 12 * expireInterval) t.
Proof.
  apply (sweeps_add_up
           [Row sampleId (Some "abc") (getTimeStamp newYear2025);
            Row (sampleGenerator 1) (Some "def")
                (getTimeStamp (newYear2025 + 23 * Clock.msPerHour))]
           12 (newYear2025 + 47 * Clock.msPerHour)).
  - repeat constructor.
    + exists newYear2025. split; [vm_compute; split; [discriminate|reflexivity]
                                 |reflexivity].
    + exists (newYear2025 + 23 * Clock.msPerHour).
      split; [vm_compute; split; [discriminate|reflexivity]|reflexivity].
  - lia.
  - vm_compute. discriminate.
  - vm_compute. reflexivity.
Defined.

(** X10.  The number the sweep logs, [delValue.changes], is exactly the
    number of rows it removed, and it is zero (the "No rows found"
    branch) exactly when the sweep left the table as it was. *)
Theorem sweep_reports_what_it_removed (now : Z) (t : table) :
  (expireChanges now t + List.length (dbExpireValue now t))%nat = List.length t
  /\ (expireChanges now t = O <-> dbExpireValue now t = t).
Proof.
  unfold expireChanges, dbExpireValue. split.
  - apply filter_split_length.
  - induction t as [|r t IH]; simpl; [tauto|].
    destruct (expired now r) eqn:He; simpl.
    + split; [discriminate|]. intros H. exfalso.
      assert (Hlen : (List.length (List.filter (fun r => negb (expired now r)) t)
                      <= List.length t)%nat) by apply List.filter_length_le.
      rewrite H in Hlen. simpl in Hlen. lia.
    + rewrite IH. split; [intros ->; reflexivity|].
      intros H. injection H as H. exact H.
Qed.

(* ===================================================================== *)
(** * The clients' text conversions                                       *)
(* ===================================================================== *)

Module ClientFacts.
Import Client.

Lemma append_cons (a : ascii) (s r : string) :
  (String a s ++ r)%string = String a (s ++ r).
Proof. reflexivity. Qed.

Lemma replaceAll_app (x y : ascii) (s r : string) :
  replaceAll x y (s ++ r) = (replaceAll x y s ++ replaceAll x y r)%string.
Proof.
  induction s as [|a s IH]; [reflexivity|].
  rewrite append_cons. cbn [replaceAll]. rewrite IH. reflexivity.
Qed.

Lemma replaceAll_length (x y : ascii) (s : string) :
  String.length (replaceAll x y s) = String.length s.
Proof.
  induction s as [|a s IH]; cbn [replaceAll String.length]; [reflexivity|].
  rewrite IH. reflexivity.
Qed.

Lemma replaceAll_padding (x y : ascii) (p : nat) :
  x <> "="%char -> replaceAll x y (padding p) = padding p.
Proof.
  intros Hx. induction p as [|p IH]; cbn [padding replaceAll]; [reflexivity|].
  rewrite IH. destruct (Ascii.eqb_spec "=" x); [congruence|reflexivity].
Qed.

Lemma stripPadding_padding (p : nat) : stripPadding (padding p) = EmptyString.
Proof.
  induction p as [|p IH]; cbn [padding stripPadding]; [reflexivity|].
  rewrite IH. reflexivity.
Qed.

(** A text without ['='] loses nothing to [replace(/=+$/, '')], and the
    padding behind it goes whole. *)
Lemma stripPadding_app (s : string) (p : nat) :
  all_chars (fun a => a <> "="%char) s ->
  stripPadding (s ++ padding p) = s.
Proof.
  induction s as [|a s IH]; intros Hs.
  - apply stripPadding_padding.
  - destruct Hs as [Ha Hs]. rewrite append_cons. cbn [stripPadding].
    rewrite (IH Hs). destruct s; [|reflexivity].
    destruct (Ascii.eqb_spec a "="); [contradiction|reflexivity].
Qed.

Lemma removeAll_padding (p : nat) : removeAll "=" (padding p) = EmptyString.
Proof.
  induction p as [|p IH]; cbn [padding removeAll]; [reflexivity|].
  rewrite IH. reflexivity.
Qed.

Lemma removeAll_app (s : string) (p : nat) :
  all_chars (fun a => a <> "="%char) s ->
  removeAll "=" (s ++ padding p) = s.
Proof.
  induction s as [|a s IH]; intros Hs.
  - apply removeAll_padding.
  - destruct Hs as [Ha Hs]. rewrite append_cons. cbn [removeAll].
    rewrite (IH Hs).
    destruct (Ascii.eqb_spec a "="); [contradiction|reflexivity].
Qed.

Lemma all_chars_impl (P Q : ascii -> Prop) (s : string) :
  (forall a, P a -> Q a) -> all_chars P s -> all_chars Q s.
Proof.
  intros H. induction s as [|a s IH]; cbn [all_chars]; [auto|].
  intros [Ha Hs]. auto.
Qed.

(** Replacing [x] by [y] brings no ['='] into a text that has none. *)
Lemma replaceAll_no_eq (x y : ascii) (s : string) :
  y <> "="%char ->
  all_chars (fun a => a <> "="%char) s ->
  all_chars (fun a => a <> "="%char) (replaceAll x y s).
Proof.
  intros Hy. induction s as [|a s IH]; cbn [replaceAll all_chars]; [auto|].
  intros [Ha Hs]. split; [|auto].
  destruct (Ascii.eqb a x); assumption.
Qed.

(** The two replacements of the encoder are undone by the two of the
    decoder on a text that had no ['-'] and no ['_'] to begin with. *)
Lemma replaceAll_undone (s : string) :
  all_chars plain s ->
  replaceAll "_" "/" (replaceAll "-" "+"
    (replaceAll "/" "_" (replaceAll "+" "-" s))) = s.
Proof.
  induction s as [|a s IH]; cbn [replaceAll all_chars]; [reflexivity|].
  intros [(_ & Hminus & Hunder) Hs]. rewrite (IH Hs). f_equal.
  destruct (Ascii.eqb_spec a "+") as [->|H1]; [reflexivity|]. cbv iota.
  destruct (Ascii.eqb_spec a "/") as [->|H2]; [reflexivity|]. cbv iota.
  apply Ascii.eqb_neq in Hminus, Hunder. rewrite Hminus. cbv iota.
  rewrite Hunder. reflexivity.
Qed.

(** ... and the other way round on a text that had no ['+'] and no ['/']. *)
Lemma replaceAll_redone (s : string) :
  all_chars (fun a => a <> "+"%char /\ a <> "/"%char) s ->
  replaceAll "/" "_" (replaceAll "+" "-"
    (replaceAll "_" "/" (replaceAll "-" "+" s))) = s.
Proof.
  induction s as [|a s IH]; cbn [replaceAll all_chars]; [reflexivity|].
  intros [[Hplus Hslash] Hs]. rewrite (IH Hs). f_equal.
  destruct (Ascii.eqb_spec a "-") as [->|H1]; [reflexivity|]. cbv iota.
  destruct (Ascii.eqb_spec a "_") as [->|H2]; [reflexivity|]. cbv iota.
  apply Ascii.eqb_neq in Hplus, Hslash. rewrite Hplus. cbv iota.
  rewrite Hslash. reflexivity.
Qed.

Lemma encode_padded (body : string) (p : nat) :
  all_chars (fun a => a <> "="%char) body ->
  base64URLencode (body ++ padding p) =
    replaceAll "/" "_" (replaceAll "+" "-" body).
Proof.
  intros Hb. unfold base64URLencode.
  rewrite !replaceAll_app, !replaceAll_padding by discriminate.
  apply stripPadding_app.
  apply replaceAll_no_eq; [discriminate|].
  apply replaceAll_no_eq; [discriminate|exact Hb].
Qed.

Lemma pad_back (len p : nat) :
  (p < 4)%nat -> ((len + p) mod 4 = 0)%nat ->
  (if (len mod 4 =? 0)%nat then EmptyString else padding (4 - len mod 4))
    = padding p.
Proof.
  intros Hp Hmod.
  pose proof (Nat.mod_upper_bound len 4 ltac:(lia)) as Hr.
  rewrite Nat.Div0.add_mod in Hmod.
  rewrite (Nat.mod_small p 4 Hp) in Hmod.
  generalize dependent (len mod 4)%nat. intros r Hr Hmod.
  destruct r as [|[|[|[|r]]]]; [| | | |lia];
    destruct p as [|[|[|[|p]]]]; try lia;
    try (vm_compute in Hmod; discriminate); reflexivity.
Qed.

End ClientFacts.

Lemma base64URL_round_trip_aux (body : string) (p : nat) :
  Client.all_chars Client.plain body ->
  (p < 4)%nat -> ((String.length body + p) mod 4 = 0)%nat ->
  Client.base64URLdecode (Client.base64URLencode (body ++ Client.padding p))
    = (body ++ Client.padding p)%string.
Proof.
  intros Hbody Hp Hmod.
  rewrite ClientFacts.encode_padded
    by (apply (ClientFacts.all_chars_impl Client.plain); [|exact Hbody];
        intros a Ha; apply Ha).
  unfold Client.base64URLdecode. cbv zeta.
  rewrite ClientFacts.replaceAll_undone by exact Hbody.
  rewrite !ClientFacts.replaceAll_length.
  rewrite (ClientFacts.pad_back _ p) by assumption. reflexivity.
Qed.

(** X11.  The URL-safe form of a base64 text decodes to the text itself:
    for a text of characters other than ['='], ['-'] and ['_'] followed by
    up to three ['='] that fill it up to a multiple of four characters,
    [base64URLdecode] undoes [base64URLencode]. *)
Theorem base64URL_round_trip (body : string) (p : nat) :
  Client.all_chars Client.plain body ->
  (p < 4)%nat -> ((String.length body + p) mod 4 = 0)%nat ->
  Client.base64URLdecode (Client.base64URLencode (body ++ Client.padding p))
    = (body ++ Client.padding p)%string.
Proof. apply base64URL_round_trip_aux. Qed.

Lemma base64URL_round_trip_witness :
  Client.base64URLdecode (Client.base64URLencode "a+b/c9Zk+/8=")
    = "a+b/c9Zk+/8=".
Proof.
  apply (base64URL_round_trip "a+b/c9Zk+/8" 1).
  - cbn [Client.all_chars]. unfold Client.plain.
    repeat split; discriminate.
  - lia.
  - reflexivity.
Defined.

(** X12.  The other way round: a URL-safe text, one without ['+'], ['/']
    and ['='], whatever its length, is what [base64URLencode] makes of its
    decoding. *)
Theorem base64URL_decode_encode (u : string) :
  Client.all_chars
    (fun a => a <> "+"%char /\ a <> "/"%char /\ a <> "="%char) u ->
  Client.base64URLencode (Client.base64URLdecode u) = u.
Proof.
  intros Hu. unfold Client.base64URLdecode. cbv zeta.
  assert (Hpad : exists k,
             (if (String.length u mod 4 =? 0)%nat then EmptyString
              else Client.padding (4 - String.length u mod 4))
             = Client.padding k).
  { destruct (String.length u mod 4 =? 0)%nat;
      [exists O|eexists]; reflexivity. }
  destruct Hpad as [k ->].
  rewrite ClientFacts.encode_padded.
  - apply ClientFacts.replaceAll_redone.
    apply (ClientFacts.all_chars_impl _ _ _ (fun a H => conj (proj1 H) (proj1 (proj2 H))) Hu).
  - apply ClientFacts.replaceAll_no_eq; [discriminate|].
    apply ClientFacts.replaceAll_no_eq; [discriminate|].
    apply (ClientFacts.all_chars_impl _ _ _ (fun a H => proj2 (proj2 H)) Hu).
Qed.

Lemma base64URL_decode_encode_witness :
  Client.base64URLencode (Client.base64URLdecode "a-b_c9Zk-_8") = "a-b_c9Zk-_8".
Proof.
  apply (base64URL_decode_encode "a-b_c9Zk-_8").
  cbn [Client.all_chars]. repeat split; discriminate.
Defined.

(** X13.  The PowerShell module and the web page turn a key into the same
    URL-safe text: on a text without ['='] followed by any number of
    ['='], dropping every ['='] and dropping the ['='] at the end are the
    same. *)
Theorem both_clients_make_the_same_key (body : string) (p : nat) :
  Client.all_chars (fun a => a <> "="%char) body ->
  Client.urlSafeB64Key (body ++ Client.padding p)
    = Client.base64URLencode (body ++ Client.padding p).
Proof.
  intros Hbody. rewrite ClientFacts.encode_padded by exact Hbody.
  unfold Client.urlSafeB64Key.
  rewrite !ClientFacts.replaceAll_app, !ClientFacts.replaceAll_padding
    by discriminate.
  apply ClientFacts.removeAll_app.
  apply ClientFacts.replaceAll_no_eq; [discriminate|].
  apply ClientFacts.replaceAll_no_eq; [discriminate|exact Hbody].
Qed.

Lemma both_clients_make_the_same_key_witness :
  Client.urlSafeB64Key "a+b/c9Zk+/8=" = Client.base64URLencode "a+b/c9Zk+/8=".
Proof.
  apply (both_clients_make_the_same_key "a+b/c9Zk+/8" 1).
  cbn [Client.all_chars]. repeat split; discriminate.
Defined.

(** X14.  The key travels in the link: for a 256-bit key, whose base64
    text is 43 characters and one ['='], the 43 characters
    [decryptMessage] reads behind the ['#'] of the link decode to the
    key's base64 text, whatever follows them. *)
Theorem link_key_is_recovered (body rest : string) :
  Client.all_chars Client.plain body ->
  String.length body = 43%nat ->
  Client.base64URLdecode
    (Client.hashKey
       ("#" ++ Client.base64URLencode (body ++ "=") ++ rest)%string)
    = (body ++ "=")%string.
Proof.
  intros Hbody Hlen.
  assert (Hne : Client.all_chars (fun a => a <> "="%char) body).
  { apply (ClientFacts.all_chars_impl Client.plain); [|exact Hbody].
    intros a Ha. apply Ha. }
  pose proof (ClientFacts.encode_padded body 1 Hne) as Henc.
  change (Client.padding 1) with "=" in Henc.
  assert (Hcut : Client.hashKey
                   ("#" ++ Client.base64URLencode (body ++ "=") ++ rest)%string
                 = Client.base64URLencode (body ++ "=")).
  { unfold Client.hashKey.
    change ("#" ++ ?s)%string with (String "#" s).
    change (String.substring 1 43 (String "#" ?s)) with (String.substring 0 43 s).
    apply substring_append.
    rewrite Henc, !ClientFacts.replaceAll_length. exact Hlen. }
  rewrite Hcut.
  apply (base64URL_round_trip_aux body 1 Hbody); [lia|].
  rewrite Hlen. reflexivity.
Qed.

Lemma link_key_is_recovered_witness :
  Client.base64URLdecode
    (Client.hashKey
       ("#" ++ Client.base64URLencode
                 "ABCDEFGHIJKLMNOPQRSTUVWXYZabcdefghijklmn+/0="
            ++ "&utm=x")%string)
    = "ABCDEFGHIJKLMNOPQRSTUVWXYZabcdefghijklmn+/0=".
Proof.
  apply (link_key_is_recovered
           "ABCDEFGHIJKLMNOPQRSTUVWXYZabcdefghijklmn+/0" "&utm=x").
  - cbn [Client.all_chars]. unfold Client.plain. repeat split; discriminate.
  - reflexivity.
Defined.

Lemma append_length (p r : string) :
  String.length (p ++ r) = (String.length p + String.length r)%nat.
Proof.
  induction p as [|a p IH]; [reflexivity|].
  rewrite ClientFacts.append_cons. cbn [String.length]. rewrite IH. reflexivity.
Qed.

Lemma substring_drop (p r : string) :
  String.substring (String.length p) (String.length r) (p ++ r) = r.
Proof.
  induction p as [|a p IH].
  - apply substring_short. lia.
  - rewrite ClientFacts.append_cons. exact IH.
Qed.

(** X15.  What the recipient's page takes apart is what the sender put
    together: when the sender posts a 16-character IV text joined with a
    ciphertext text and gets an id no row carried, the page served for
    that id carries a message whose first 16 characters are the IV text
    and whose remainder is the ciphertext text. *)
Theorem recipient_splits_what_sender_joined (nanoid : nat -> string)
    (fuel : nat) (iv ct : string) (now : Z) (k : nat) (t : table)
    (id : string) (k' : nat) (t1 : table) :
  (forall j, String.length (nanoid j) = 21%nat) ->
  String.length iv = 16%nat ->
  dbFindData id t = JFalse ->
  encrypt_loop nanoid fuel (Some (Client.concatCipherIV iv ct)) now k t
    = Some (id, k', t1) ->
  exists message,
    fst (app_get (Some id) t1) = notePage (JString message)
    /\ Client.concatPart true message = iv
    /\ Client.concatPart false message = ct.
Proof.
  intros Hgen Hiv Hfresh Hloop.
  apply encrypt_loop_inv in Hloop as (n & _ & _ & Hid & _ & ->).
  exists (Client.concatCipherIV iv ct).
  assert (Hne : id <> "") by (subst id; apply length_nonempty, Hgen).
  assert (Hcut : noteIdOf id = id).
  { apply noteIdOf_short. subst id. rewrite Hgen. lia. }
  assert (Hmsg : Client.concatCipherIV iv ct <> "").
  { unfold Client.concatCipherIV. destruct iv; [discriminate|].
    rewrite ClientFacts.append_cons. discriminate. }
  split; [|split].
  - rewrite app_get_found; rewrite ?Hcut, ?dbFindData_add_fresh by exact Hfresh;
      auto using truthy_JString.
  - unfold Client.concatPart, Client.concatCipherIV.
    apply substring_append, Hiv.
  - unfold Client.concatPart, Client.concatCipherIV.
    rewrite append_length, Hiv.
    replace (16 + String.length ct - 16)%nat with (String.length ct) by lia.
    rewrite <- Hiv. apply substring_drop.
Qed.

Lemma recipient_splits_what_sender_joined_witness :
  exists message,
    fst (app_get (Some (sampleGenerator 0))
           (dbAddData (sampleGenerator 0)
              (Some (Client.concatCipherIV "AAECAwQFBgcICQoL" "q83vEjRWeJA="))
              newYear2025 []))
      = notePage (JString message)
    /\ Client.concatPart true message = "AAECAwQFBgcICQoL"
    /\ Client.concatPart false message = "q83vEjRWeJA=".
Proof.
  apply (recipient_splits_what_sender_joined sampleGenerator 1
           "AAECAwQFBgcICQoL" "q83vEjRWeJA=" newYear2025 0 []
           (sampleGenerator 0) 1).
  - intros j. reflexivity.
  - reflexivity.
  - reflexivity.
  - reflexivity.
Defined.

(* ===================================================================== *)
(** * What a request can touch                                            *)
(* ===================================================================== *)




(* ===================================================================== *)
(** * The two revisions of [GET /]                                        *)
(* ===================================================================== *)

(** X17.  The revision with limiters and the one before it serve notes
    alike: for every query and table they leave the same table, and the
    one delivers a note exactly when the other does, the same note. *)
Theorem revisions_deliver_alike (n : option string) (t : table) (c : jsval) :
  snd (Legacy.app_get n t) = snd (app_get n t)
  /\ (fst (Legacy.app_get n t) = Legacy.foundPage c
      <-> fst (app_get n t) = notePage c /\ truthy c = true).
Proof.
  unfold Legacy.app_get, app_get.
  destruct n as [s|];
    [|split; [reflexivity|split; [discriminate|intros [H _]; discriminate]]].
  destruct (negb (s =? "")%string);
    [|split; [reflexivity|split; [discriminate|intros [H _]; discriminate]]].
  destruct (truthy (dbFindData (noteIdOf s) t)) eqn:Ht; cbn [fst snd].
  - split; [reflexivity|]. split.
    + intros H. injection H as <-. auto.
    + intros [H _]. injection H as <-. reflexivity.
  - split; [reflexivity|]. split; [discriminate|].
    intros [H Hc]. injection H as <-. discriminate.
Qed.

(* ===================================================================== *)
(** * Where rows come from                                                *)
(* ===================================================================== *)

(** X18.  A row appears under an id only through a write that is answered
    with that id's link: if no row carries [id] before a request and one
    does after it, the request was a write, its reply is the link of [id],
    and [id] was drawn from the generator while it was served. *)
Theorem rows_come_from_answered_writes (nanoid : nat -> string) (fuel : nat)
    (rq : request) (now : Z) (st : server) (out : outcome) (id : string) :
  serve nanoid fuel rq now st = Some out ->
  dbFindData id (db st) = JFalse ->
  dbFindData id (db (after out)) <> JFalse ->
  (exists c, target rq = PostEncrypt c)
  /\ reply out = Json [("id", noteUrl (host rq) id)]
  /\ exists j, (nanoCalls st <= j < nanoCalls (after out))%nat
               /\ nanoid j = id.
Proof.
  unfold serve. intros H Hbefore Hafter.
  destruct (Limit.rateLimit reqLimiter (ip rq) now (reqHits st))
    as [[|r] rh]; [|injection H as <-; contradiction].
  destruct (Limit.slowDown speedLimiter (ip rq) now (spdHits st)) as [d sh].
  destruct (target rq) as [n|c|].
  - pose proof (app_get_keeps_absent n id (db st) Hbefore) as Hkeep.
    destruct (app_get n (db st)) as [r' db']. injection H as <-.
    contradiction.
  - destruct (Limit.rateLimit encLimiter (ip rq) (now + d) (encHits st))
      as [[|r'] eh]; [|injection H as <-; contradiction].
    unfold app_post_encrypt in H.
    destruct (encrypt_loop nanoid fuel c (now + d) (nanoCalls st) (db st))
      as [[[id' k'] db']|] eqn:Hloop; [|discriminate].
    injection H as <-. cbn in *.
    apply encrypt_loop_inv in Hloop as (m & _ & _ & Hid & -> & ->).
    destruct (String.eqb_spec id' id) as [->|Hne].
    + split; [eauto|]. split; [reflexivity|].
      exists (nanoCalls st + m)%nat. split; [lia|auto].
    + rewrite dbFindData_add_other in Hafter by exact Hne. contradiction.
  - injection H as <-. contradiction.
Qed.

Lemma rows_come_from_answered_writes_witness :
  let alice := "203.0.113.7" in
  let rq := Request alice "notelock.example" (PostEncrypt (Some "abc")) in
  let one := <[alice := Limit.Window newYear2025 1]> ∅ in
  let id := sampleGenerator 0 in
  let out := Outcome (Json [("id", noteUrl "notelock.example" id)]) 0
               (Server [Row id (Some "abc") (getTimeStamp newYear2025)]
                       1 one one one) in
  serve sampleGenerator 1 rq newYear2025 initial = Some out
  /\ reply out = Json [("id", noteUrl (host rq) id)]
  /\ exists j, (nanoCalls initial <= j < nanoCalls (after out))%nat
               /\ sampleGenerator j = id.
Proof.
  intros alice rq one id out.
  assert (H : serve sampleGenerator 1 rq newYear2025 initial = Some out)
    by (vm_compute; reflexivity).
  split; [exact H|].
  apply (rows_come_from_answered_writes sampleGenerator 1 rq newYear2025
           initial out id H).
  - reflexivity.
  - discriminate.
Defined.

(** X19.  With unique ids and no blank notes in the table, a write of a
    non-empty blob that is answered at all is either turned away by one of
    the two hard limiters, the table untouched, or answered with the link
    of an id under which a retrieval delivers that very blob. *)
Theorem answered_write_is_retrievable (nanoid : nat -> string) (fuel : nat)
    (rq : request) (now : Z) (st : server) (out : outcome) (blob : string) :
  (forall j, String.length (nanoid j) = 21%nat) ->
  tidy (db st) ->
  target rq = PostEncrypt (Some blob) -> blob <> "" ->
  serve nanoid fuel rq now st = Some out ->
  ((reply out = Limit.rl_handler reqLimiter
    \/ reply out = Limit.rl_handler encLimiter)
   /\ db (after out) = db st)
  \/ exists id,
       reply out = Json [("id", noteUrl (host rq) id)]
       /\ app_get (Some id) (db (after out))
          = (notePage (JString blob), dbDeleteValue id (db (after out)))
       /\ dbDeleteValue id (db (after out)) = db st.
Proof.
  unfold serve. intros Hgen Htidy Htarget Hblob H.
  destruct (Limit.rateLimit reqLimiter (ip rq) now (reqHits st))
    as [[|r] rh] eqn:Hreq.
  2:{ injection H as <-. left. cbn [reply after db]. split; [|reflexivity]. left.
      unfold Limit.rateLimit in Hreq.
      destruct (Limit.hit _ _ _ _) as [hits cs'].
      destruct (_ <? _); [|discriminate].
      injection Hreq as Hr _. rewrite <- Hr. reflexivity. }
  destruct (Limit.slowDown speedLimiter (ip rq) now (spdHits st)) as [d sh].
  rewrite Htarget in H.
  destruct (Limit.rateLimit encLimiter (ip rq) (now + d) (encHits st))
    as [[|r'] eh] eqn:Henc.
  2:{ injection H as <-. left. cbn [reply after db]. split; [|reflexivity]. right.
      unfold Limit.rateLimit in Henc.
      destruct (Limit.hit _ _ _ _) as [hits cs'].
      destruct (_ <? _); [|discriminate].
      injection Henc as Hr _. rewrite <- Hr. reflexivity. }
  unfold app_post_encrypt in H.
  destruct (encrypt_loop nanoid fuel (Some blob) (now + d) (nanoCalls st) (db st))
    as [[[id k'] db']|] eqn:Hloop; [|discriminate].
  injection H as <-. right. exists id. cbn [reply after db].
  apply encrypt_loop_inv in Hloop as (m & _ & [_ Hfree] & Hid & _ & ->).
  rewrite <- Hid in Hfree.
  pose proof (tidy_falsy_absent id (db st) Htidy Hfree) as Habsent.
  assert (Hne : id <> "") by (subst id; apply length_nonempty, Hgen).
  assert (Hcut : noteIdOf id = id).
  { apply noteIdOf_short. subst id. rewrite Hgen. lia. }
  split; [reflexivity|]. split.
  - rewrite app_get_found; rewrite ?Hcut, ?dbFindData_add_fresh by exact Habsent;
      auto using truthy_JString.
  - unfold dbDeleteValue, dbAddData. rewrite List.filter_app. simpl.
    unfold has_uuid at 2. simpl. rewrite String.eqb_refl. simpl.
    rewrite List.app_nil_r.
    apply dbFindData_false in Habsent.
    clear -Habsent. induction (db st) as [|r t IH]; simpl in *; [reflexivity|].
    destruct (has_uuid id r); [discriminate|]. simpl. f_equal. auto.
Qed.

Lemma answered_write_is_retrievable_witness :
  let alice := "203.0.113.7" in
  let rq := Request alice "notelock.example" (PostEncrypt (Some "abc")) in
  let one := <[alice := Limit.Window newYear2025 1]> ∅ in
  let id := sampleGenerator 0 in
  let out := Outcome (Json [("id", noteUrl "notelock.example" id)]) 0
               (Server [Row id (Some "abc") (getTimeStamp newYear2025)]
                       1 one one one) in
  serve sampleGenerator 1 rq newYear2025 initial = Some out
  /\ (((reply out = Limit.rl_handler reqLimiter
        \/ reply out = Limit.rl_handler encLimiter)
       /\ db (after out) = db initial)
      \/ exists id',
           reply out = Json [("id", noteUrl (host rq) id')]
           /\ app_get (Some id') (db (after out))
              = (notePage (JString "abc"), dbDeleteValue id' (db (after out)))
           /\ dbDeleteValue id' (db (after out)) = db initial).
Proof.
  intros alice rq one id out.
  assert (H : serve sampleGenerator 1 rq newYear2025 initial = Some out)
    by (vm_compute; reflexivity).
  split; [exact H|].
  apply (answered_write_is_retrievable sampleGenerator 1 rq newYear2025
           initial out "abc").
  - intros j. reflexivity.
  - split; constructor.
  - reflexivity.
  - discriminate.
  - exact H.
Defined.

(* ===================================================================== *)
(** * Stamps                                                              *)
(* ===================================================================== *)

Lemma time8_compare (t0 t1 : Z) :
  String.compare (Clock.time8 t0) (Clock.time8 t1) =
    (t0 mod Clock.msPerDay / 1000 ?= t1 mod Clock.msPerDay / 1000).
Proof.
  unfold Clock.time8. cbv zeta.
  unfold Clock.msPerDay, Clock.msPerHour, Clock.msPerMinute, Clock.msPerSecond.
  change (24 * 60 * 60 * 1000) with 86400000.
  change (60 * 60 * 1000) with 3600000. change (60 * 1000) with 60000.
  pose proof (Z.mod_pos_bound t0 86400000 ltac:(lia)) as H0.
  pose proof (Z.mod_pos_bound t1 86400000 ltac:(lia)) as H1.
  set (a := t0 mod 86400000) in *. set (b := t1 mod 86400000) in *.
  rewrite compare_app by reflexivity.
  rewrite pad2_compare by (Z.div_mod_to_equations; lia).
  change (":" ++ ?s)%string with (String ":" s). cbn [String.compare].
  change (Ascii.compare ":" ":") with Eq. cbv iota.
  rewrite compare_app by reflexivity.
  rewrite pad2_compare by (Z.div_mod_to_equations; lia).
  change (":" ++ ?s)%string with (String ":" s). cbn [String.compare].
  change (Ascii.compare ":" ":") with Eq. cbv iota.
  rewrite pad2_compare by (Z.div_mod_to_equations; lia).
  rewrite (lex_digit 3600 (a / 1000) (b / 1000)) by lia.
  replace (a / 1000 / 3600) with (a / 3600000) by (Z.div_mod_to_equations; lia).
  replace (b / 1000 / 3600) with (b / 3600000) by (Z.div_mod_to_equations; lia).
  rewrite (lex_digit 60 (a / 1000 mod 3600) (b / 1000 mod 3600)) by lia.
  replace (a / 1000 mod 3600 / 60) with (a / 60000 mod 60)
    by (Z.div_mod_to_equations; lia).
  replace (b / 1000 mod 3600 / 60) with (b / 60000 mod 60)
    by (Z.div_mod_to_equations; lia).
  replace (a / 1000 mod 3600 mod 60) with (a / 1000 mod 60)
    by (Z.div_mod_to_equations; lia).
  replace (b / 1000 mod 3600 mod 60) with (b / 1000 mod 60)
    by (Z.div_mod_to_equations; lia).
  reflexivity.
Qed.

Lemma toISOString_compare (t0 t1 : Z) :
  0 <= t0 < endOfYears -> 0 <= t1 < endOfYears ->
  String.compare (Clock.toISOString t0) (Clock.toISOString t1) = (t0 ?= t1).
Proof.
  intros H0 H1. unfold Clock.toISOString.
  rewrite compare_app by (rewrite !date10_length; reflexivity).
  rewrite date10_compare by assumption.
  change ("T" ++ ?s)%string with (String "T" s). cbn [String.compare].
  change (Ascii.compare "T" "T") with Eq. cbv iota.
  rewrite compare_app by reflexivity.
  rewrite time8_compare.
  change ("." ++ ?s)%string with (String "." s). cbn [String.compare].
  change (Ascii.compare "." ".") with Eq. cbv iota.
  rewrite compare_app by reflexivity.
  rewrite pad3_compare_mod.
  change (String.compare "Z" "Z") with Eq.
  unfold Clock.msPerDay, Clock.msPerSecond.
  change (24 * 60 * 60 * 1000) with 86400000.
  rewrite (lex_digit 86400000 t0 t1) by lia.
  rewrite (lex_digit 1000 (t0 mod 86400000) (t1 mod 86400000)) by lia.
  replace (t0 mod 86400000 mod 1000) with (t0 mod 1000)
    by (Z.div_mod_to_equations; lia).
  replace (t1 mod 86400000 mod 1000) with (t1 mod 1000)
    by (Z.div_mod_to_equations; lia).
  replace (t0 mod 1000 mod 1000) with (t0 mod 1000)
    by (Z.div_mod_to_equations; lia).
  replace (t1 mod 1000 mod 1000) with (t1 mod 1000)
    by (Z.div_mod_to_equations; lia).
  destruct (t0 / 86400000 ?= t1 / 86400000); try reflexivity.
  destruct (t0 mod 86400000 / 1000 ?= t1 mod 86400000 / 1000); try reflexivity.
  destruct (t0 mod 1000 ?= t1 mod 1000); reflexivity.
Qed.

(** X20.  The stamps [getTimeStamp] writes sort as the instants they were
    taken, for clocks between 1970 and the year 9999: comparing two stamps
    as text gives the order of the two clock readings, and two stamps are
    equal only for the same millisecond. *)
Theorem stamps_sort_chronologically (t0 t1 : Z) :
  0 <= t0 < endOfYears -> 0 <= t1 < endOfYears ->
  String.compare (getTimeStamp t0) (getTimeStamp t1) = (t0 ?= t1)
  /\ (getTimeStamp t0 = getTimeStamp t1 -> t0 = t1).
Proof.
  intros H0 H1. unfold getTimeStamp.
  pose proof (toISOString_compare t0 t1 H0 H1) as Hcmp.
  split; [exact Hcmp|].
  intros Heq. rewrite Heq in Hcmp. apply Z.compare_eq.
  rewrite <- Hcmp. clear.
  induction (Clock.toISOString t1) as [|a s IH]; [reflexivity|].
  cbn [String.compare]. rewrite IH.
  unfold Ascii.compare. rewrite N.compare_refl. reflexivity.
Qed.

Lemma stamps_sort_chronologically_witness :
  String.compare (getTimeStamp newYear2025) (getTimeStamp (newYear2025 + 1))
    = (newYear2025 ?= newYear2025 + 1)
  /\ (getTimeStamp newYear2025 = getTimeStamp (newYear2025 + 1) ->
      newYear2025 = newYear2025 + 1).
Proof.
  apply (stamps_sort_chronologically newYear2025 (newYear2025 + 1));
    vm_compute; split; first [discriminate|reflexivity].
Defined.

(** X21.  On a message of at most 16 characters, the empty message of the
    "not found" page included, the IV part [getConcatMessageEncoding]
    cuts out is the whole message and the ciphertext part is empty. *)
Theorem short_message_has_no_ciphertext (message : string) :
  (String.length message <= 16)%nat ->
  Client.concatPart true message = message
  /\ Client.concatPart false message = "".
Proof.
  intros Hlen. unfold Client.concatPart. split.
  - apply substring_short, Hlen.
  - replace (String.length message - 16)%nat with O by lia.
    generalize 16%nat. induction message as [|a s IH]; intros [|n];
      try reflexivity.
    simpl in Hlen. cbn [String.substring]. apply IH. lia.
Qed.

Lemma short_message_has_no_ciphertext_witness :
  Client.concatPart true "" = "" /\ Client.concatPart false "" = "".
Proof.
  apply (short_message_has_no_ciphertext ""). simpl. lia.
Defined.

Lemma sweep_reports_what_it_removed_witness :
  let t := [Row sampleId (Some "abc") (getTimeStamp newYear2025);
            Row (sampleGenerator 1) (Some "def")
                (getTimeStamp (newYear2025 + 47 * Clock.msPerHour))] in
  let now := newYear2025 + 48 * Clock.msPerHour in
  (expireChanges now t + List.length (dbExpireValue now t))%nat = List.length t
  /\ (expireChanges now t = O <-> dbExpireValue now t = t).
Proof.
  exact (sweep_reports_what_it_removed
           (newYear2025 + 48 * Clock.msPerHour)
           [Row sampleId (Some "abc") (getTimeStamp newYear2025);
            Row (sampleGenerator 1) (Some "def")
                (getTimeStamp (newYear2025 + 47 * Clock.msPerHour))]).
Defined.

Lemma revisions_deliver_alike_witness :
  let t := [Row sampleId (Some "abc") ""] in
  snd (Legacy.app_get (Some sampleId) t) = snd (app_get (Some sampleId) t)
  /\ (fst (Legacy.app_get (Some sampleId) t) = Legacy.foundPage (JString "abc")
      <-> fst (app_get (Some sampleId) t) = notePage (JString "abc")
          /\ truthy (JString "abc") = true).
Proof.
  exact (revisions_deliver_alike (Some sampleId)
           [Row sampleId (Some "abc") ""] (JString "abc")).
Defined.
